(** * pycoatl.spatialdata.spatialdatawrapper: synthetic-DIC post-processing

    A shallow embedding of [spatialdatawrapper.py] and the properties of
    its grid interpolator, gradient estimator, strain calculator and
    window differentiator.

    Numbers.  A NumPy/Python float is modelled by [float64]: a real
    number, one of the two infinities, or not-a-number.  The special
    values follow IEEE 754.  Arithmetic on finite values is exact real
    arithmetic, except where a float is truncated to an integer: the
    number of grid points [int((max - min) / spacing)] is computed with
    the subtraction and the division rounded to binary64 ([round64]:
    nearest, ties to even, 53 bits), since there the rounding decides the
    result.  Overflow, underflow and the sign of zero are left out of the
    model.

    Objects.  Meshes and metadata dictionaries are Python objects that
    are shared and mutated in place; they live in a [heap] and are named
    by locations.  A function that mutates them is a computation in the
    monad [M]: it threads the heap and either returns a value or raises,
    and the heap it leaves behind on a raise is the heap at the moment of
    the raise, as in Python.

    External library code (PyVista's resampling and connectivity queries,
    NumPy's least-squares solver) is taken as a parameter. *)

From Stdlib Require Import Reals Lra Lia ZArith.
From stdpp Require Import gmap strings list fin_maps.

(** ** Floating-point values *)

Inductive float64 : Type :=
  | NaN
  | PInf
  | NInf
  | Fin (r : R).

Declare Scope f64_scope.
Delimit Scope f64_scope with f.
Bind Scope f64_scope with float64.

(** Sign of a real, as a comparison with zero. *)
Definition Rsign (r : R) : comparison :=
  match total_order_T r 0 with
  | inleft (left _) => Lt
  | inleft (right _) => Eq
  | inright _ => Gt
  end.

(** Sign of a float; [NaN] is given [Eq] and never consulted. *)
Definition fsign (a : float64) : comparison :=
  match a with
  | NaN => Eq
  | PInf => Gt
  | NInf => Lt
  | Fin r => Rsign r
  end.

Definition fneg (a : float64) : float64 :=
  match a with
  | NaN => NaN
  | PInf => NInf
  | NInf => PInf
  | Fin r => Fin (- r)
  end.

Definition fadd (a b : float64) : float64 :=
  match a, b with
  | NaN, _ | _, NaN => NaN
  | PInf, NInf | NInf, PInf => NaN
  | PInf, _ | _, PInf => PInf
  | NInf, _ | _, NInf => NInf
  | Fin x, Fin y => Fin (x + y)
  end.

Definition fsub (a b : float64) : float64 := fadd a (fneg b).

Definition fmul (a b : float64) : float64 :=
  match a, b with
  | NaN, _ | _, NaN => NaN
  | Fin x, Fin y => Fin (x * y)
  | _, _ =>
      match fsign a, fsign b with
      | Eq, _ | _, Eq => NaN
      | Lt, Lt | Gt, Gt => PInf
      | _, _ => NInf
      end
  end.

(** NumPy's division: no exception, a zero divisor gives an infinity or
    [NaN]. *)
Definition fdiv (a b : float64) : float64 :=
  match a, b with
  | NaN, _ | _, NaN => NaN
  | Fin x, Fin y =>
      if Req_dec_T y 0 then
        match Rsign x with Eq => NaN | Gt => PInf | Lt => NInf end
      else Fin (x / y)
  | Fin _, _ => Fin 0
  | _, Fin y =>
      match fsign a, Rsign y with
      | Lt, Lt | Gt, Gt | Gt, Eq => PInf
      | _, _ => NInf
      end
  | _, _ => NaN
  end.

(** [np.sqrt] *)
Definition fsqrt (a : float64) : float64 :=
  match a with
  | NaN => NaN
  | PInf => PInf
  | NInf => NaN
  | Fin r => if Rlt_dec r 0 then NaN else Fin (sqrt r)
  end.

(** [np.log] *)
Definition flog (a : float64) : float64 :=
  match a with
  | NaN => NaN
  | PInf => PInf
  | NInf => NaN
  | Fin r =>
      if Rlt_dec r 0 then NaN
      else if Req_dec_T r 0 then NInf
      else Fin (ln r)
  end.

Infix "+" := fadd : f64_scope.
Infix "-" := fsub : f64_scope.
Infix "*" := fmul : f64_scope.
Infix "/" := fdiv : f64_scope.

(** The float of a Python int. *)
Definition of_Z (z : Z) : float64 := Fin (IZR z).

(** ** Exceptions *)

Inductive exn : Type :=
  | IndexError
  | KeyError (key : string)
  | ValueError
  | ZeroDivisionError
  | OverflowError
  | LinAlgError.

Inductive result (A : Type) : Type :=
  | Ok (a : A)
  | Raise (e : exn).
Arguments Ok {A} a.
Arguments Raise {A} e.

#[global] Instance result_ret : MRet result := fun _ a => Ok a.
#[global] Instance result_bind : MBind result := fun _ _ f m =>
  match m with
  | Ok a => f a
  | Raise e => Raise e
  end.
#[global] Instance result_fmap : FMap result := fun _ _ f m =>
  match m with
  | Ok a => Ok (f a)
  | Raise e => Raise e
  end.

(** [a[i]] on a sequence, for a non-negative index. *)
Definition getitem {A} (a : list A) (i : nat) : result A :=
  match a !! i with
  | Some x => Ok x
  | None => Raise IndexError
  end.

(** [a[idx]] for a list of indices (NumPy's integer-array indexing). *)
Definition take_indices {A} (a : list A) (idx : list nat) : result (list A) :=
  mapM (getitem a) idx.

(** ** Integer helpers of the source *)

(** [int(n / 2)] for a Python int [n]: true division, then truncation
    towards zero. *)
Definition int_half (n : Z) : Z := Z.quot n 2.

(** [int(round(n / 2))] for a Python int [n]: [round] sends a tie to the
    even neighbour. *)
Definition round_half (n : Z) : Z :=
  let q := (n / 2)%Z in
  if Z.even n then q
  else if Z.even q then q else (q + 1)%Z.

(** ** Arrays: element-wise NumPy operations on one-dimensional arrays *)

Definition arr_sadd (c : float64) (a : list float64) : list float64 :=
  map (fadd c) a.
Definition arr_smul (c : float64) (a : list float64) : list float64 :=
  map (fmul c) a.
Definition arr_add (a b : list float64) : list float64 := zip_with fadd a b.
Definition arr_mul (a b : list float64) : list float64 := zip_with fmul a b.
(** [a**2] *)
Definition arr_sq (a : list float64) : list float64 :=
  map (fun x => fmul x x) a.
Definition arr_sqrt (a : list float64) : list float64 := map fsqrt a.
Definition arr_log (a : list float64) : list float64 := map flog a.

(** ** Strain calculator *)

(** The arguments of the two square roots. *)
Definition exx_radicand (dudx dudy : list float64) : list float64 :=
  arr_add (arr_add (arr_sadd (Fin 1) (arr_smul (Fin 2) dudx)) (arr_sq dudx))
          (arr_sq dudy).
Definition eyy_radicand (dvdx dvdy : list float64) : list float64 :=
  arr_add (arr_add (arr_sadd (Fin 1) (arr_smul (Fin 2) dvdy)) (arr_sq dvdx))
          (arr_sq dvdy).

Definition euler_almansi_n (dudx dudy dvdx dvdy : list float64)
  : list float64 * list float64 * list float64 :=
  let exx := arr_log (arr_sqrt (exx_radicand dudx dudy)) in
  let eyy := arr_log (arr_sqrt (eyy_radicand dvdx dvdy)) in
  let exy :=
    arr_add (arr_mul dvdx (arr_sadd (Fin 1) dudx))
            (arr_mul dudy (arr_sadd (Fin 1) dvdy)) in
  (exx, eyy, exy).

(** The three strain formulas at one point. *)
Definition exx_at (dudx dudy : float64) : float64 :=
  flog (fsqrt (Fin 1 + Fin 2 * dudx + dudx * dudx + dudy * dudy)).
Definition eyy_at (dvdx dvdy : float64) : float64 :=
  flog (fsqrt (Fin 1 + Fin 2 * dvdy + dvdx * dvdx + dvdy * dvdy)).
Definition exy_at (dudx dudy dvdx dvdy : float64) : float64 :=
  (dvdx * (Fin 1 + dudx) + dudy * (Fin 1 + dvdy))%f.

(** ** Local gradient estimator *)

Definition point3 : Type := float64 * float64 * float64.
Definition pt_x (p : point3) : float64 := p.1.1.
Definition pt_y (p : point3) : float64 := p.1.2.

(** [point_data[:, :2].T]: the row of x coordinates and the row of y
    coordinates. *)
Definition xy_rows (point_data : list point3) : list (list float64) :=
  [map pt_x point_data; map pt_y point_data].

(** [np.vstack(rows).T] for rows of one length: entry [i] of the result
    collects entry [i] of every row. *)
Definition vstack_T (rows : list (list float64)) : list (list float64) :=
  match rows with
  | [] => []
  | r :: _ => map (fun i => map (fun row => nth i row NaN) rows)
                  (seq 0 (length r))
  end.

(** [x[:, k]] for a two-dimensional array given by its rows. *)
Definition column (x : list (list float64)) (k : nat) : result (list float64) :=
  mapM (fun row => getitem row k) x.

Definition params : Type := float64 * float64 * float64 * float64.

Definition L_Q4_n (x : list (list float64)) : list (list float64) :=
  let x0 := nth 0 x [] in
  let x1 := nth 1 x [] in
  vstack_T [replicate (length x0) (Fin 1); x0; x1; arr_mul x0 x1].

Section Estimator.
(** [np.linalg.lstsq(a, b)[0]] for a matrix [a] of four columns: the
    coefficient vector, or [LinAlgError]. *)
Variable lstsq : list (list float64) → list float64 → result params.
(** The window size is a variable of the enclosing function. *)
Variable window_size : Z.

Definition evaluate_point_dev_n (point_data : list point3)
    (data : list float64) : result (float64 * float64) :=
  let window_spread := int_half (window_size - 1) in
  let xdata := xy_rows point_data in
  let xbasis := L_Q4_n xdata in
  let ydata := data in
  if (Z.of_nat (length ydata) <? window_size ^ 2)%Z then
    Ok (NaN, NaN)
  else
    paramsQ4 ← lstsq xbasis ydata;
    let '(_, p1, p2, p3) := paramsQ4 in
    px ← column xdata (Z.to_nat (round_half (window_size ^ 2)));
    px1 ← getitem px 1;
    px0 ← getitem px 0;
    Ok ((p1 + p3 * px1)%f, (p2 + p3 * px0)%f).
End Estimator.

(** ** Meshes, containers and the heap *)

(** The six numbers of a bounding box. *)
Record bounds6 : Type := Bounds {
  x_min : float64; x_max : float64;
  y_min : float64; y_max : float64;
  z_min : float64; z_max : float64
}.

(** A mesh-like object: point coordinates, named per-point arrays, the
    bounding box, and the connectivity query [point_neighbors_levels],
    which lists, level by level, the points within a number of hops. *)
Record mesh : Type := Mesh {
  points : list point3;
  point_data : gmap string (list float64);
  bounds : bounds6;
  point_neighbors_levels : nat → Z → list (list nat)
}.

Definition number_of_points (m : mesh) : nat := length (points m).

(** [mesh.point_data[name]] *)
Definition point_data_getitem (m : mesh) (name : string)
  : result (list float64) :=
  match point_data m !! name with
  | Some a => Ok a
  | None => Raise (KeyError name)
  end.

(** [mesh[name] = a] for an array with one entry per point. *)
Definition mesh_setitem (name : string) (a : list float64) (m : mesh) : mesh :=
  {| points := points m;
     point_data := <[name := a]> (point_data m);
     bounds := bounds m;
     point_neighbors_levels := point_neighbors_levels m |}.

(** Values of the metadata mapping. *)
Inductive pyval : Type :=
  | PBool (b : bool)
  | PStr (s : string)
  | PInt (z : Z)
  | PFloat (f : float64).

Definition loc : Type := nat.

(** Modelled from the spec: the time-series container [SpatialData],
    whose class is not among the source files: an ordered sequence of
    mesh snapshots, parallel index, time and load sequences and a
    metadata mapping; its constructor stores the five objects it is
    given.  Snapshots and metadata are references into the heap. *)
Record SpatialData : Type := mkSpatialData {
  data_sets : list loc;
  _index : list Z;
  _time : list float64;
  _load : list float64;
  _metadata : loc
}.

Record heap : Type := Heap {
  meshes : gmap loc mesh;
  dicts : gmap loc (gmap string pyval)
}.

#[global] Instance mesh_inhabited : Inhabited mesh :=
  populate (Mesh [] ∅ (Bounds NaN NaN NaN NaN NaN NaN) (fun _ _ => [])).

(** ** Computations on the heap *)

Definition M (A : Type) : Type := heap → heap * result A.

#[global] Instance M_ret : MRet M := fun _ a h => (h, Ok a).
#[global] Instance M_bind : MBind M := fun _ _ f m h =>
  match m h with
  | (h', Ok a) => f a h'
  | (h', Raise e) => (h', Raise e)
  end.

Definition lift {A} (r : result A) : M A := fun h => (h, r).

Definition get_mesh (l : loc) : M mesh := fun h => (h, Ok (meshes h !!! l)).

Definition update_mesh (l : loc) (f : mesh → mesh) : M unit := fun h =>
  (Heap (<[l := f (meshes h !!! l)]> (meshes h)) (dicts h), Ok ()).

(** A new object: stored at a location not in use. *)
Definition alloc_mesh (m : mesh) : M loc := fun h =>
  let l := fresh (dom (meshes h)) in
  (Heap (<[l := m]> (meshes h)) (dicts h), Ok l).

(** [d[k] = v] on the dictionary object at [d]. *)
Definition dict_setitem (d : loc) (k : string) (v : pyval) : M unit := fun h =>
  (Heap (meshes h) (<[d := <[k := v]> (dicts h !!! d)]> (dicts h)), Ok ()).

(** [for x in xs: body(x)] *)
Fixpoint for_in {A} (xs : list A) (body : A → M unit) : M unit :=
  match xs with
  | [] => mret ()
  | x :: xs' => body x ;; for_in xs' body
  end.

(** ** Neighbour-topology builder *)

Definition get_points_neighbours (m : mesh) (window_size : Z)
  : list (list nat) :=
  let n_points := number_of_points m in
  let levels := int_half (window_size - 1) in
  map (fun point => point :: concat (point_neighbors_levels m point levels))
      (seq 0 n_points).

(** ** Window differentiator *)

Section Differentiator.
Variable lstsq : list (list float64) → list float64 → result params.

(** The body of the loop over the points of [differentiate_mesh]. *)
Definition differentiate_point (window_size : Z) (m : mesh)
    (points_list : list (list nat)) (point : nat)
  : result (float64 * float64 * float64 * float64) :=
  neighbours ← getitem points_list point;
  point_data ← take_indices (points m) neighbours;
  disp_x ← point_data_getitem m "disp_x";
  u ← take_indices disp_x neighbours;
  disp_y ← point_data_getitem m "disp_y";
  v ← take_indices disp_y neighbours;
  du ← evaluate_point_dev_n lstsq window_size point_data u;
  dv ← evaluate_point_dev_n lstsq window_size point_data v;
  Ok (du.1, du.2, dv.1, dv.2).

Definition differentiate_mesh (window_size : Z) (m : mesh)
    (points_list : list (list nat))
  : result (list float64 * list float64 * list float64) :=
  let n_points := number_of_points m in
  g ← mapM (differentiate_point window_size m points_list) (seq 0 n_points);
  let dudx := map (fun t => t.1.1.1) g in
  let dudy := map (fun t => t.1.1.2) g in
  let dvdx := map (fun t => t.1.2) g in
  let dvdy := map (fun t => t.2) g in
  Ok (euler_almansi_n dudx dudy dvdx dvdy).

(** The three assignments [mesh['exx'] = exx] ... after a
    differentiation. *)
Definition write_strain
    (e : list float64 * list float64 * list float64) (m : mesh) : mesh :=
  mesh_setitem "exy" e.2 (mesh_setitem "eyy" e.1.2 (mesh_setitem "exx" e.1.1 m)).

(** Differentiate the mesh object at [l] and store the three fields on
    it. *)
Definition process_mesh (window_size : Z) (points_list : list (list nat))
    (l : loc) : M unit :=
  m ← get_mesh l;
  e ← lift (differentiate_mesh window_size m points_list);
  update_mesh l (mesh_setitem "exx" e.1.1) ;;
  update_mesh l (mesh_setitem "eyy" e.1.2) ;;
  update_mesh l (mesh_setitem "exy" e.2).

Definition window_differentation (spatialdata : SpatialData)
    (data_range : string) (window_size : Z) : M unit :=
  first ← lift (getitem (data_sets spatialdata) 0);
  mesh0 ← get_mesh first;
  let points_list := get_points_neighbours mesh0 window_size in
  dict_setitem (_metadata spatialdata) "dic_filter" (PBool true) ;;
  dict_setitem (_metadata spatialdata) "window_size" (PInt window_size) ;;
  dict_setitem (_metadata spatialdata) "data_range" (PStr data_range) ;;
  if String.eqb data_range "all" then
    for_in (data_sets spatialdata) (process_mesh window_size points_list)
  else if String.eqb data_range "last" then
    l ← lift (getitem (data_sets spatialdata)
                      (length (data_sets spatialdata) - 1));
    process_mesh window_size points_list l
  else mret ().
End Differentiator.

(** ** Grid interpolator *)

(** *** Rounding to binary64 *)

(** The integer nearest to a real; a tie goes to the even neighbour. *)
Definition Rnearest_even (x : R) : Z :=
  let f := Zfloor x in
  match total_order_T (x - IZR f) (1 / 2) with
  | inleft (left _) => f
  | inleft (right _) => if Z.even f then f else (f + 1)%Z
  | inright _ => (f + 1)%Z
  end.

(** The binary exponent of a positive real [x]: the [e] with
    [2^e <= x < 2^(e+1)]. *)
Definition binade (x : R) : Z := Zfloor (ln x / ln 2).

(** A positive real rounded to a significand of 53 bits. *)
Definition round_pos (x : R) : R :=
  let e := binade x in
  (IZR (Rnearest_even (x * powerRZ 2 (52 - e))) * powerRZ 2 (e - 52))%R.

(** Rounding to the nearest binary64 number, ties to even; the exponent
    is not bounded. *)
Definition round64 (r : R) : R :=
  match Rsign r with
  | Eq => 0
  | Gt => round_pos r
  | Lt => - round_pos (- r)
  end.

Definition fround (a : float64) : float64 :=
  match a with
  | Fin r => Fin (round64 r)
  | _ => a
  end.

(** Python's [a - b] on floats. *)
Definition py_sub (a b : float64) : float64 := fround (a - b)%f.

(** Python's [a / b] on floats. *)
Definition py_truediv (a b : float64) : result float64 :=
  match b with
  | Fin y =>
      if Req_dec_T y 0 then Raise ZeroDivisionError else Ok (fround (a / b)%f)
  | _ => Ok (fround (a / b)%f)
  end.

(** The default value of [spacing]: the binary64 number that the literal
    [0.2] denotes, [3602879701896397 / 2^54]. *)
Definition default_spacing : R :=
  (IZR 3602879701896397 / IZR (2 ^ 54))%R.

(** Truncation of a real towards zero. *)
Definition Rtrunc (r : R) : Z :=
  if Rle_dec 0 r then Zfloor r else Zceil r.

(** Python's [int(a)] on a float. *)
Definition py_int (a : float64) : result Z :=
  match a with
  | NaN => Raise ValueError
  | PInf | NInf => Raise OverflowError
  | Fin r => Ok (Rtrunc r)
  end.

(** [np.linspace(start, stop, num)]: [num] evenly spaced samples over
    the closed interval, the last one set to [stop]. *)
Definition linspace (start stop : float64) (num : Z) : result (list float64) :=
  if (num <? 0)%Z then Raise ValueError
  else
    let n := Z.to_nat num in
    let div := (num - 1)%Z in
    let delta := (stop - start)%f in
    let step := if (0 <? div)%Z then (delta / of_Z div)%f else delta in
    let y := map (fun i => (of_Z (Z.of_nat i) * step + start)%f) (seq 0 n) in
    Ok (if (1 <? num)%Z then <[pred n := stop]> y else y).

(** [pv.StructuredGrid] on the arrays of [np.meshgrid(xr, yr, zr)], for a
    scalar [zr]: the
    coordinate arrays have shape [(len(yr), len(xr), 1)], and the points
    are listed with the first array index running fastest. *)
Record StructuredGrid : Type := mkGrid {
  dimensions : nat * nat * nat;
  grid_points : list point3
}.

Definition structured_grid (xr yr : list float64) (zr : float64)
  : StructuredGrid :=
  {| dimensions := (length yr, length xr, 1);
     grid_points := x ← xr; (fun y => (x, y, zr)) <$> yr |}.

Definition excluded_fields : list string :=
  ["ObjectId"; "vtkGhostType"; "vtkValidPointMask"; "vtkGhostType"].

(** [v == False] on an array entry. *)
Definition eq_False (v : float64) : bool :=
  match v with
  | Fin r => if Req_dec_T r 0 then true else false
  | _ => false
  end.

(** [a[sel] = np.nan] for a boolean array [sel]. *)
Definition assign_nan_where (a : list float64) (sel : list bool)
  : result (list float64) :=
  if decide (length sel = length a)
  then Ok (zip_with (fun x (b : bool) => if b then NaN else x) a sel)
  else Raise IndexError.

Definition array_names (m : mesh) : list string :=
  (map_to_list (point_data m)).*1.

(** The body of the loop over the fields of a resampled snapshot. *)
Definition mask_field (res : mesh) (field : string) : result mesh :=
  if bool_decide (field ∈ excluded_fields) then Ok res
  else
    a ← point_data_getitem res field;
    valid ← point_data_getitem res "vtkValidPointMask";
    a' ← assign_nan_where a (eq_False <$> valid);
    Ok (mesh_setitem field a' res).

Fixpoint mask_fields (fields : list string) (res : mesh) : result mesh :=
  match fields with
  | [] => Ok res
  | field :: rest => res' ← mask_field res field; mask_fields rest res'
  end.

Section Interpolator.
(** [grid.sample(mesh)]: PyVista's resampling of a mesh onto the grid,
    a new data set carrying the interpolated fields and the
    [vtkValidPointMask] array; the arguments are left as they are. *)
Variable sample : StructuredGrid → mesh → mesh.

(** The sampling grid, from the bounding box and the spacing. *)
Definition sampling_grid (b : bounds6) (spacing : float64)
  : result StructuredGrid :=
  nx ← py_truediv (py_sub (x_max b) (x_min b)) spacing ≫= py_int;
  xr ← linspace (x_min b) (x_max b) nx;
  ny ← py_truediv (py_sub (y_max b) (y_min b)) spacing ≫= py_int;
  yr ← linspace (y_min b) (y_max b) ny;
  let zr := z_max b in
  Ok (structured_grid xr yr zr).

(** The body of the loop over the snapshots. *)
Definition resample (grid : StructuredGrid) (l : loc) : M loc :=
  m ← get_mesh l;
  let result := sample grid m in
  masked ← lift (mask_fields (array_names result) result);
  alloc_mesh masked.

Definition interpolate_spatialdata_grid (spatialdata : SpatialData)
    (spacing : float64) : M SpatialData :=
  first ← lift (getitem (data_sets spatialdata) 0);
  mesh0 ← get_mesh first;
  grid ← lift (sampling_grid (bounds mesh0) spacing);
  let metadata := _metadata spatialdata in
  dict_setitem metadata "interpolated" (PBool true) ;;
  dict_setitem metadata "interpolation_type" (PStr "grid") ;;
  dict_setitem metadata "grid_spacing" (PFloat spacing) ;;
  data_sets_int ← mapM (resample grid) (data_sets spatialdata);
  mret (mkSpatialData data_sets_int (_index spatialdata)
          (_time spatialdata) (_load spatialdata) metadata).
End Interpolator.

(** ** Vocabulary of the specification *)

(** The snapshots a [data_range] selects: all of them for ["all"], the
    final one for ["last"], none for any other value. *)
Definition selected_snapshots (spatialdata : SpatialData)
    (data_range : string) : list loc :=
  if String.eqb data_range "all" then data_sets spatialdata
  else if String.eqb data_range "last" then
    option_list (last (data_sets spatialdata))
  else [].

(** A metadata mapping with the three keys of the differentiator set. *)
Definition dic_filter_stamp (window_size : Z) (data_range : string)
    (d : gmap string pyval) : gmap string pyval :=
  <["data_range" := PStr data_range]>
    (<["window_size" := PInt window_size]>
       (<["dic_filter" := PBool true]> d)).

(** A metadata mapping with the three keys of the interpolator set. *)
Definition interpolated_stamp (spacing : float64)
    (d : gmap string pyval) : gmap string pyval :=
  <["grid_spacing" := PFloat spacing]>
    (<["interpolation_type" := PStr "grid"]>
       (<["interpolated" := PBool true]> d)).

(** The mesh at [l] in [ms] is the mesh at [l] in [m0] with the strain
    fields of its differentiation written on it. *)
Definition strains_written
    (lstsq : list (list float64) → list float64 → result params)
    (window_size : Z) (points_list : list (list nat))
    (m0 ms : gmap loc mesh) (l : loc) : Prop :=
  ∃ e, differentiate_mesh lstsq window_size (m0 !!! l) points_list = Ok e ∧
       ms !! l = Some (write_strain e (m0 !!! l)).

(** The effect of the masking loop on one field: [res] is the resampled
    snapshot, [out] the snapshot after the loop.  An identifier or mask
    field is as it was; any other field is not-a-number where the
    validity mask is false and as it was elsewhere. *)
Definition field_masked (res out : mesh) (field : string) : Prop :=
  ∀ a, point_data res !! field = Some a →
    if bool_decide (field ∈ excluded_fields)
    then point_data out !! field = Some a
    else ∃ valid a',
      point_data res !! "vtkValidPointMask" = Some valid ∧
      point_data out !! field = Some a' ∧
      length valid = length a ∧ length a' = length a ∧
      ∀ i v, valid !! i = Some v →
             a' !! i = if eq_False v then Some NaN else a !! i.

(** Two meshes that differ at most in the fields [exx], [eyy] and
    [exy]. *)
Definition same_but_strain (m' m : mesh) : Prop :=
  points m' = points m ∧ bounds m' = bounds m ∧
  point_neighbors_levels m' = point_neighbors_levels m ∧
  ∀ name, name ≠ "exx" → name ≠ "eyy" → name ≠ "exy" →
          point_data m' !! name = point_data m !! name.

(** ** Example data *)

(** The bilinear model [a + b x + c y + d x y] at a point. *)
Definition bilinear (q : params) (p : point3) : float64 :=
  let '(a, b, c, d) := q in
  (a + b * pt_x p + c * pt_y p + d * (pt_x p * pt_y p))%f.

Definition pt (x y : Z) : point3 := (of_Z x, of_Z y, of_Z 0).

(** A window of ten points: a point, the eight points around it on the
    unit grid, and one more point to the right. *)
Definition window10 : list point3 :=
  [pt 1 1; pt 0 0; pt 1 0; pt 2 0; pt 0 1; pt 2 1; pt 0 2; pt 1 2; pt 2 2;
   pt 3 1].

(** The field [f(x, y) = x y] sampled on [window10]. *)
Definition samples10 : list float64 :=
  [of_Z 1; of_Z 0; of_Z 0; of_Z 0; of_Z 0; of_Z 2; of_Z 0; of_Z 2; of_Z 4;
   of_Z 3].

(** A solver that answers with the coefficients of [f(x, y) = x y]. *)
Definition xy_solver (_ : list (list float64)) (_ : list float64)
  : result params :=
  Ok (of_Z 0, of_Z 0, of_Z 0, of_Z 1).

(** A mesh of one point, without connectivity. *)
Definition one_point_mesh (fields : gmap string (list float64)) : mesh :=
  Mesh [pt 0 0] fields
       (Bounds (of_Z 0) (of_Z 1) (of_Z 0) (of_Z 1) (of_Z 0) (of_Z 0))
       (fun _ _ => []).

Definition mesh_with_disp : mesh :=
  one_point_mesh (<["disp_x" := [of_Z 0]]> (<["disp_y" := [of_Z 0]]> ∅)).

Definition mesh_without_disp : mesh := one_point_mesh ∅.

(** A heap with the two meshes and one empty metadata mapping. *)
Definition heap2 : heap :=
  Heap (<[0 := mesh_with_disp]> (<[1 := mesh_without_disp]> ∅))
       (<[0 := ∅]> ∅).

(** A series of two snapshots, the second without displacement fields,
    a series of its first snapshot alone, and a series of none. *)
Definition series2 : SpatialData :=
  mkSpatialData [0; 1] [0%Z; 1%Z] [of_Z 0; of_Z 1] [of_Z 0; of_Z 0] 0.

Definition series1 : SpatialData :=
  mkSpatialData [0] [0%Z] [of_Z 0] [of_Z 0] 0.

Definition series0 : SpatialData := mkSpatialData [] [] [] [] 0.

(** A resampling that gives every grid point the displacement [7] and
    the identifier [5], and marks the first grid point as invalid. *)
Definition probe (grid : StructuredGrid) (m : mesh) : mesh :=
  let n := length (grid_points grid) in
  Mesh (grid_points grid)
       (<["vtkValidPointMask" :=
            (fun i => of_Z (Z.of_nat (i `min` 1))) <$> seq 0 n]>
          (<["ObjectId" := replicate n (of_Z 5)]>
             (<["disp_x" := replicate n (of_Z 7)]> ∅)))
       (bounds m) (fun _ _ => []).

(** A mesh on the ten points of [window10] carrying the samples of
    [f(x, y) = x y] as both displacement fields, and a neighbourhood list
    whose first entry lists all ten points. *)
Definition mesh10 : mesh :=
  Mesh window10
       (<["disp_x" := samples10]> (<["disp_y" := samples10]> ∅))
       (Bounds (of_Z 0) (of_Z 3) (of_Z 0) (of_Z 2) (of_Z 0) (of_Z 0))
       (fun _ _ => []).

Definition neighbours10 : list (list nat) := [[0; 1; 2; 3; 4; 5; 6; 7; 8; 9]].

(** The same mesh with a connectivity in which the first point and each
    of the nine others are neighbours at one hop. *)
Definition star10 : mesh :=
  Mesh window10 (point_data mesh10) (bounds mesh10)
       (fun point _ =>
          if decide (point = 0) then [[1; 2; 3; 4; 5; 6; 7; 8; 9]] else [[0]]).

(** A resampling whose result carries a displacement field and no
    validity mask. *)
Definition probe_without_mask (grid : StructuredGrid) (m : mesh) : mesh :=
  Mesh (grid_points grid)
       (<["disp_x" := replicate (length (grid_points grid)) (of_Z 7)]> ∅)
       (bounds m) (fun _ _ => []).

(** A series whose second snapshot, [mesh10], has more points than its
    first. *)
Definition heap3 : heap :=
  Heap (<[1 := mesh_with_disp]> (<[2 := mesh10]> ∅)) (<[0 := ∅]> ∅).

Definition series3 : SpatialData := mkSpatialData [1; 2] [] [] [] 0.

(** * Properties *)

(** ** The exception monad *)

Lemma result_bind_Ok {A B} (f : A → result B) (a : A) : Ok a ≫= f = f a.
Proof. reflexivity. Qed.

Lemma result_bind_Raise {A B} (f : A → result B) (e : exn) :
  Raise e ≫= f = Raise e.
Proof. reflexivity. Qed.

(** ** Floating-point values *)

Lemma fadd_NaN_l a : (NaN + a)%f = NaN.
Proof. reflexivity. Qed.

Lemma fadd_NaN_r a : (a + NaN)%f = NaN.
Proof. by destruct a. Qed.

Lemma fmul_NaN_l a : (NaN * a)%f = NaN.
Proof. reflexivity. Qed.

Lemma fmul_NaN_r a : (a * NaN)%f = NaN.
Proof. by destruct a. Qed.

Lemma fsqrt_Fin r : (0 <= r)%R → fsqrt (Fin r) = Fin (sqrt r).
Proof. intros Hr. unfold fsqrt. destruct (Rlt_dec r 0); [lra | done]. Qed.

Lemma flog_Fin r : (0 < r)%R → flog (Fin r) = Fin (ln r).
Proof.
  intros Hr. unfold flog.
  destruct (Rlt_dec r 0); [lra |]. destruct (Req_dec_T r 0); [lra | done].
Qed.

Lemma flog_zero : flog (Fin 0) = NInf.
Proof.
  unfold flog. destruct (Rlt_dec 0 0); [lra |].
  destruct (Req_dec_T 0 0); [done | lra].
Qed.

(** [ln(sqrt(1)) = 0]. *)
Lemma flog_fsqrt_one : flog (fsqrt (Fin 1)) = Fin 0.
Proof.
  rewrite fsqrt_Fin by lra. rewrite sqrt_1, flog_Fin by lra. by rewrite ln_1.
Qed.

Lemma Fin_eq r s : r = s → Fin r = Fin s.
Proof. by intros ->. Qed.

(** The radicand of [exx] on finite gradients is a sum of two squares. *)
Lemma radicand_at_Fin a b :
  (Fin 1 + Fin 2 * Fin a + Fin a * Fin a + Fin b * Fin b)%f
  = Fin ((1 + a) * (1 + a) + b * b).
Proof. cbn. apply Fin_eq. lra. Qed.

Lemma radicand_yy_at_Fin c d :
  (Fin 1 + Fin 2 * Fin d + Fin c * Fin c + Fin d * Fin d)%f
  = Fin ((1 + d) * (1 + d) + c * c).
Proof. cbn. apply Fin_eq. lra. Qed.

Lemma sum_squares_nonneg x y : (0 <= x * x + y * y)%R.
Proof. nra. Qed.

(** On a non-negative finite radicand, [log(sqrt(_))] is minus infinity at
    zero and finite elsewhere. *)
Lemma flog_fsqrt_nonneg r :
  (0 <= r)%R →
  flog (fsqrt (Fin r)) = if Req_dec_T r 0 then NInf else Fin (ln (sqrt r)).
Proof.
  intros Hr. rewrite fsqrt_Fin by done.
  destruct (Req_dec_T r 0) as [-> | Hne].
  - rewrite sqrt_0. apply flog_zero.
  - apply flog_Fin, sqrt_lt_R0. lra.
Qed.

Lemma exx_at_zero : exx_at (Fin 0) (Fin 0) = Fin 0.
Proof.
  unfold exx_at. rewrite radicand_at_Fin.
  replace ((1 + 0) * (1 + 0) + 0 * 0)%R with 1%R by lra.
  apply flog_fsqrt_one.
Qed.

Lemma eyy_at_zero : eyy_at (Fin 0) (Fin 0) = Fin 0.
Proof.
  unfold eyy_at. rewrite radicand_yy_at_Fin.
  replace ((1 + 0) * (1 + 0) + 0 * 0)%R with 1%R by lra.
  apply flog_fsqrt_one.
Qed.

Lemma exy_at_zero : exy_at (Fin 0) (Fin 0) (Fin 0) (Fin 0) = Fin 0.
Proof. unfold exy_at. cbn. apply Fin_eq. lra. Qed.

(** ** Strain calculator *)

Section StrainPointwise.
Context (dudx dudy dvdx dvdy : list float64).

Lemma exx_radicand_lookup i a b :
  dudx !! i = Some a → dudy !! i = Some b →
  exx_radicand dudx dudy !! i
  = Some (Fin 1 + Fin 2 * a + a * a + b * b)%f.
Proof.
  intros Ha Hb. unfold exx_radicand, arr_add, arr_sadd, arr_smul, arr_sq.
  rewrite !lookup_zip_with, !list_lookup_fmap, Ha, Hb. done.
Qed.

Lemma eyy_radicand_lookup i c d :
  dvdx !! i = Some c → dvdy !! i = Some d →
  eyy_radicand dvdx dvdy !! i
  = Some (Fin 1 + Fin 2 * d + c * c + d * d)%f.
Proof.
  intros Hc Hd. unfold eyy_radicand, arr_add, arr_sadd, arr_smul, arr_sq.
  rewrite !lookup_zip_with, !list_lookup_fmap, Hc, Hd. done.
Qed.

Lemma euler_almansi_n_lookup i a b c d :
  dudx !! i = Some a → dudy !! i = Some b →
  dvdx !! i = Some c → dvdy !! i = Some d →
  let '(exx, eyy, exy) := euler_almansi_n dudx dudy dvdx dvdy in
  exx !! i = Some (exx_at a b) ∧
  eyy !! i = Some (eyy_at c d) ∧
  exy !! i = Some (exy_at a b c d).
Proof.
  intros Ha Hb Hc Hd. unfold euler_almansi_n, arr_log, arr_sqrt.
  rewrite !list_lookup_fmap.
  rewrite (exx_radicand_lookup i a b), (eyy_radicand_lookup i c d) by done.
  split_and!; [done | done |].
  unfold arr_add, arr_mul, arr_sadd.
  rewrite !lookup_zip_with, !list_lookup_fmap, Ha, Hb, Hc, Hd. done.
Qed.

Lemma euler_almansi_n_length n :
  length dudx = n → length dudy = n → length dvdx = n → length dvdy = n →
  let '(exx, eyy, exy) := euler_almansi_n dudx dudy dvdx dvdy in
  length exx = n ∧ length eyy = n ∧ length exy = n.
Proof.
  intros H1 H2 H3 H4.
  unfold euler_almansi_n, arr_log, arr_sqrt, exx_radicand, eyy_radicand,
    arr_add, arr_mul, arr_sadd, arr_smul, arr_sq.
  rewrite ?length_fmap, ?length_zip_with, ?length_fmap. lia.
Qed.
End StrainPointwise.

Lemma exx_at_NaN a b : a = NaN ∨ b = NaN → exx_at a b = NaN.
Proof.
  unfold exx_at. intros [-> | ->].
  - by rewrite fmul_NaN_r, fadd_NaN_r, !fadd_NaN_l.
  - by rewrite fmul_NaN_l, fadd_NaN_r.
Qed.

Lemma eyy_at_NaN c d : c = NaN ∨ d = NaN → eyy_at c d = NaN.
Proof.
  unfold eyy_at. intros [-> | ->].
  - by rewrite fmul_NaN_l, fadd_NaN_r, fadd_NaN_l.
  - by rewrite !fmul_NaN_r, !fadd_NaN_r.
Qed.

Lemma exy_at_NaN a b c d :
  a = NaN ∨ b = NaN ∨ c = NaN ∨ d = NaN → exy_at a b c d = NaN.
Proof.
  unfold exy_at. intros [-> | [-> | [-> | ->]]].
  - by rewrite fadd_NaN_r, fmul_NaN_r, fadd_NaN_l.
  - by rewrite fmul_NaN_l, fadd_NaN_r.
  - by rewrite fmul_NaN_l, fadd_NaN_l.
  - by rewrite (fadd_NaN_r (Fin 1)), fmul_NaN_r, fadd_NaN_r.
Qed.

(** C8 (amended).  The strain calculator works point by point: entry [i]
    of each output is computed from entry [i] of the inputs alone, as
    [exx = ln(sqrt(1 + 2 dudx + dudx^2 + dudy^2))],
    [eyy = ln(sqrt(1 + 2 dvdy + dvdx^2 + dvdy^2))] and
    [exy = dvdx (1 + dudx) + dudy (1 + dvdy)].  A not-a-number gradient
    makes every output that is computed from it not-a-number: [dudx] or
    [dudy] does so for [exx] and [exy], [dvdx] or [dvdy] for [eyy] and
    [exy].  The function is pure. *)
Theorem euler_almansi_n_pointwise dudx dudy dvdx dvdy i a b c d :
  dudx !! i = Some a → dudy !! i = Some b →
  dvdx !! i = Some c → dvdy !! i = Some d →
  let '(exx, eyy, exy) := euler_almansi_n dudx dudy dvdx dvdy in
  exx !! i = Some (flog (fsqrt (Fin 1 + Fin 2 * a + a * a + b * b))) ∧
  eyy !! i = Some (flog (fsqrt (Fin 1 + Fin 2 * d + c * c + d * d))) ∧
  exy !! i = Some (c * (Fin 1 + a) + b * (Fin 1 + d))%f ∧
  (a = NaN ∨ b = NaN → exx !! i = Some NaN ∧ exy !! i = Some NaN) ∧
  (c = NaN ∨ d = NaN → eyy !! i = Some NaN ∧ exy !! i = Some NaN).
Proof.
  intros Ha Hb Hc Hd.
  pose proof (euler_almansi_n_lookup dudx dudy dvdx dvdy i a b c d
                Ha Hb Hc Hd) as H.
  destruct (euler_almansi_n dudx dudy dvdx dvdy) as [[exx eyy] exy].
  destruct H as (Hxx & Hyy & Hxy).
  split_and!; try done.
  - intros Hn. rewrite Hxx, Hxy, exx_at_NaN, exy_at_NaN by tauto. done.
  - intros Hn. rewrite Hyy, Hxy, eyy_at_NaN, exy_at_NaN by tauto. done.
Qed.

Lemma euler_almansi_n_pointwise_witness :
  let '(exx, eyy, exy) := euler_almansi_n [NaN] [Fin 0] [Fin 0] [Fin 0] in
  exx !! 0 = Some NaN ∧ exy !! 0 = Some NaN.
Proof.
  pose proof (euler_almansi_n_pointwise [NaN] [Fin 0] [Fin 0] [Fin 0]
                0 NaN (Fin 0) (Fin 0) (Fin 0)
                eq_refl eq_refl eq_refl eq_refl) as H.
  destruct (euler_almansi_n [NaN] [Fin 0] [Fin 0] [Fin 0]) as [[exx eyy] exy].
  destruct H as (_ & _ & _ & H & _). apply H. by left.
Defined.

(** C8, as stated, fails: with [dudx] not-a-number and the other three
    gradients zero, [eyy] is [0], not not-a-number. *)
Lemma nan_gradient_leaves_eyy_finite :
  euler_almansi_n [NaN] [Fin 0] [Fin 0] [Fin 0] = ([NaN], [Fin 0], [NaN])
  ∧ Fin 0 ≠ NaN.
Proof.
  split; [| done].
  unfold euler_almansi_n.
  change (arr_log (arr_sqrt (eyy_radicand [Fin 0] [Fin 0])))
    with [eyy_at (Fin 0) (Fin 0)].
  rewrite eyy_at_zero. reflexivity.
Qed.

(** Arrays of zero gradients give arrays of zero strains. *)
Lemma euler_almansi_n_zeros (n : nat) :
  let z := replicate n (Fin 0) in
  euler_almansi_n z z z z = (z, z, z).
Proof.
  intros z.
  assert (Lz : length z = n) by apply length_replicate.
  pose proof (euler_almansi_n_length z z z z n Lz Lz Lz Lz) as Hlen.
  pose proof (fun i x (Hi : z !! i = Some x) =>
                euler_almansi_n_lookup z z z z i x x x x Hi Hi Hi Hi) as Hlk.
  destruct (euler_almansi_n z z z z) as [[exx eyy] exy].
  destruct Hlen as (Lx & Ly & Lxy).
  assert (Hz : ∀ i, i < n → z !! i = Some (Fin 0))
    by (intros; by apply lookup_replicate_2).
  assert (Heq : ∀ l : list float64, length l = n →
            (∀ i, i < n → l !! i = Some (Fin 0)) → l = z).
  { intros l Hl Hall. apply list_eq. intros i.
    destruct (decide (i < n)) as [Hi | Hi].
    - by rewrite Hall, Hz.
    - rewrite (lookup_ge_None_2 l), (lookup_ge_None_2 z) by lia. done. }
  f_equal; [f_equal |]; apply Heq; try done; intros i Hi;
    destruct (Hlk i (Fin 0) (Hz i Hi)) as (Hxx & Hyy & Hxy).
  - by rewrite Hxx, exx_at_zero.
  - by rewrite Hyy, eyy_at_zero.
  - by rewrite Hxy, exy_at_zero.
Qed.

(** C9.  Where all four gradients are zero, [exx], [eyy] and [exy] are
    zero, exactly. *)
Theorem zero_gradients_zero_strain dudx dudy dvdx dvdy i :
  dudx !! i = Some (Fin 0) → dudy !! i = Some (Fin 0) →
  dvdx !! i = Some (Fin 0) → dvdy !! i = Some (Fin 0) →
  let '(exx, eyy, exy) := euler_almansi_n dudx dudy dvdx dvdy in
  exx !! i = Some (Fin 0) ∧ eyy !! i = Some (Fin 0) ∧ exy !! i = Some (Fin 0).
Proof.
  intros Ha Hb Hc Hd.
  pose proof (euler_almansi_n_lookup dudx dudy dvdx dvdy i _ _ _ _
                Ha Hb Hc Hd) as H.
  destruct (euler_almansi_n dudx dudy dvdx dvdy) as [[exx eyy] exy].
  by rewrite exx_at_zero, eyy_at_zero, exy_at_zero in H.
Qed.

Lemma zero_gradients_zero_strain_witness :
  let '(exx, eyy, exy) :=
    euler_almansi_n [Fin 1; Fin 0] [Fin 1; Fin 0] [Fin 1; Fin 0] [Fin 1; Fin 0]
  in exx !! 1 = Some (Fin 0) ∧ eyy !! 1 = Some (Fin 0) ∧ exy !! 1 = Some (Fin 0).
Proof.
  exact (zero_gradients_zero_strain
           [Fin 1; Fin 0] [Fin 1; Fin 0] [Fin 1; Fin 0] [Fin 1; Fin 0] 1
           eq_refl eq_refl eq_refl eq_refl).
Defined.

(** C10.  On finite gradients the argument of each square root is the
    sum of two squares, [(1 + dudx)^2 + dudy^2] and
    [(1 + dvdy)^2 + dvdx^2], hence never negative; [exx] and [eyy] are
    then never not-a-number: each is minus infinity where its radicand
    is zero and finite elsewhere. *)
Theorem radicands_nonnegative dudx dudy dvdx dvdy i (a b c d : R) :
  dudx !! i = Some (Fin a) → dudy !! i = Some (Fin b) →
  dvdx !! i = Some (Fin c) → dvdy !! i = Some (Fin d) →
  let rx := ((1 + a) * (1 + a) + b * b)%R in
  let ry := ((1 + d) * (1 + d) + c * c)%R in
  exx_radicand dudx dudy !! i = Some (Fin rx) ∧ (0 <= rx)%R ∧
  eyy_radicand dvdx dvdy !! i = Some (Fin ry) ∧ (0 <= ry)%R ∧
  let '(exx, eyy, _) := euler_almansi_n dudx dudy dvdx dvdy in
  exx !! i = Some (if Req_dec_T rx 0 then NInf else Fin (ln (sqrt rx))) ∧
  eyy !! i = Some (if Req_dec_T ry 0 then NInf else Fin (ln (sqrt ry))) ∧
  exx !! i ≠ Some NaN ∧ eyy !! i ≠ Some NaN.
Proof.
  intros Ha Hb Hc Hd rx ry.
  assert (Hrx : (0 <= rx)%R) by apply sum_squares_nonneg.
  assert (Hry : (0 <= ry)%R) by apply sum_squares_nonneg.
  rewrite (exx_radicand_lookup _ _ i _ _ Ha Hb), radicand_at_Fin.
  rewrite (eyy_radicand_lookup _ _ i _ _ Hc Hd), radicand_yy_at_Fin.
  split_and!; try done.
  pose proof (euler_almansi_n_lookup dudx dudy dvdx dvdy i _ _ _ _
                Ha Hb Hc Hd) as H.
  destruct (euler_almansi_n dudx dudy dvdx dvdy) as [[exx eyy] exy].
  destruct H as (Hxx & Hyy & _).
  unfold exx_at in Hxx. unfold eyy_at in Hyy.
  rewrite radicand_at_Fin, flog_fsqrt_nonneg in Hxx by done.
  rewrite radicand_yy_at_Fin, flog_fsqrt_nonneg in Hyy by done.
  fold rx in Hxx. fold ry in Hyy. rewrite Hxx, Hyy.
  split_and!; try done.
  - by destruct (Req_dec_T rx 0).
  - by destruct (Req_dec_T ry 0).
Qed.

Lemma radicands_nonnegative_witness :
  exx_radicand [Fin (-1)] [Fin 0] !! 0
  = Some (Fin ((1 + -1) * (1 + -1) + 0 * 0))
  ∧ (0 <= (1 + -1) * (1 + -1) + 0 * 0)%R.
Proof.
  pose proof (radicands_nonnegative [Fin (-1)] [Fin 0] [Fin 0] [Fin 0]
                0 (-1) 0 0 0 eq_refl eq_refl eq_refl eq_refl) as H.
  cbv zeta in H. destruct H as (H1 & H2 & _). by split.
Defined.

(** ** Local gradient estimator *)

(** For a square the tie of [round] always falls on the lower neighbour:
    an odd square is [1] modulo [8], so its integer half is even. *)
Lemma round_half_square w : round_half (w ^ 2) = (w ^ 2 / 2)%Z.
Proof.
  unfold round_half. cbv zeta.
  destruct (Z.even (w ^ 2)) eqn:He; [done |].
  assert (Hodd : Z.odd (w ^ 2) = true) by (by rewrite <- Z.negb_even, He).
  replace (w ^ 2)%Z with (w * w)%Z in * by lia.
  rewrite Z.odd_mul in Hodd. apply andb_prop in Hodd as [Hw _].
  apply Z.odd_spec in Hw as [k ->].
  assert (Hk : ∃ j, (k * (k + 1) = 2 * j)%Z).
  { destruct (Z.Even_or_Odd k) as [[j ->] | [j ->]].
    - exists (j * (2 * j + 1))%Z. lia.
    - exists ((2 * j + 1) * (j + 1))%Z. lia. }
  destruct Hk as [j Hj].
  replace ((2 * k + 1) * (2 * k + 1))%Z with (1 + (4 * j) * 2)%Z by lia.
  rewrite Z.div_add by lia. change (1 / 2)%Z with 0%Z.
  replace (0 + 4 * j)%Z with (2 * (2 * j))%Z by lia.
  by rewrite Z.even_mul.
Qed.

(** The design matrix of the bilinear model [a + b x + c y + d x y]:
    one row [1, x, y, x y] for every window point. *)
Lemma L_Q4_n_rows (point_data : list point3) :
  L_Q4_n (xy_rows point_data)
  = (fun p => [Fin 1; pt_x p; pt_y p; (pt_x p * pt_y p)%f]) <$> point_data.
Proof.
  unfold L_Q4_n, xy_rows, vstack_T, arr_mul. cbv zeta.
  change (nth 0 [map pt_x point_data; map pt_y point_data] [])
    with (map pt_x point_data).
  change (nth 1 [map pt_x point_data; map pt_y point_data] [])
    with (map pt_y point_data).
  rewrite length_replicate, length_map.
  apply list_eq. intros i. rewrite !list_lookup_fmap.
  destruct (point_data !! i) as [p |] eqn:Hp.
  - rewrite lookup_seq_lt by (by eapply lookup_lt_Some). cbn.
    do 2 f_equal.
    + apply nth_lookup_Some, lookup_replicate_2. by eapply lookup_lt_Some.
    + f_equal; [| f_equal; [| f_equal]].
      * apply nth_lookup_Some. by rewrite list_lookup_fmap, Hp.
      * apply nth_lookup_Some. by rewrite list_lookup_fmap, Hp.
      * apply nth_lookup_Some.
        by rewrite lookup_zip_with, !list_lookup_fmap, Hp.
  - rewrite lookup_seq_ge; [done |]. by apply lookup_ge_None.
Qed.

Lemma column_xy_rows (point_data : list point3) k c :
  point_data !! k = Some c →
  column (xy_rows point_data) k = Ok [pt_x c; pt_y c].
Proof.
  intros Hk. unfold column, xy_rows, getitem. cbn.
  by rewrite !list_lookup_fmap, Hk.
Qed.

(** C5.  A window with fewer than [window_size^2] samples gives
    not-a-number for both derivatives, and raises nothing. *)
Theorem insufficient_window_nan lstsq window_size point_data data :
  (Z.of_nat (length data) < window_size ^ 2)%Z →
  evaluate_point_dev_n lstsq window_size point_data data = Ok (NaN, NaN).
Proof.
  intros Hlt. unfold evaluate_point_dev_n. cbv zeta.
  by rewrite (proj2 (Z.ltb_lt _ _) Hlt).
Qed.

Lemma insufficient_window_nan_witness :
  (Z.of_nat (length [Fin 1; Fin 2]) < 5 ^ 2)%Z ∧
  evaluate_point_dev_n (fun _ _ => Raise LinAlgError) 5
    [(Fin 0, Fin 0, Fin 0); (Fin 1, Fin 0, Fin 0)] [Fin 1; Fin 2]
  = Ok (NaN, NaN).
Proof.
  split; [done |]. by apply insufficient_window_nan.
Defined.

(** C3.  The derivatives are not taken at the centre of the window.  The
    window is the one that [get_points_neighbours] lists for the point
    [(1, 1)] of [star10]: the point itself first, then the eight points
    around it on the unit grid and a tenth point; [window_size] is [3].
    Both displacement fields are [f(x, y) = x y], which the coefficients
    [(0, 0, 0, 1)] fit exactly, so they are the least-squares solution,
    and the derivatives of the fit at a point [(x, y)] are [(y, x)].  The
    code evaluates them at the entry of index [round(9 / 2) = 4], the
    point [(0, 1)], and stores [(1, 0)] for the point [(1, 1)].  The entry
    of index [round(N / 2) = 5] is the point [(2, 1)], where the
    derivatives are [(1, 2)]; the point the window belongs to is entry
    [0], where they are [(1, 1)]. *)
Theorem estimator_misses_window_centre :
  get_points_neighbours star10 3 !! 0 = Some [0; 1; 2; 3; 4; 5; 6; 7; 8; 9] ∧
  differentiate_point xy_solver 3 star10 (get_points_neighbours star10 3) 0
  = Ok (of_Z 1, of_Z 0, of_Z 1, of_Z 0) ∧
  (3 ^ 2 <= Z.of_nat (length samples10))%Z ∧
  Forall2 (fun p f => bilinear (of_Z 0, of_Z 0, of_Z 0, of_Z 1) p = f)
          window10 samples10 ∧
  evaluate_point_dev_n xy_solver 3 window10 samples10
  = Ok (of_Z 1, of_Z 0) ∧
  window10 !! Z.to_nat (round_half (3 ^ 2)) = Some (pt 0 1) ∧
  window10 !! Z.to_nat (round_half (Z.of_nat (length samples10)))
  = Some (pt 2 1) ∧
  ((of_Z 0 + of_Z 1 * pt_y (pt 2 1))%f, (of_Z 0 + of_Z 1 * pt_x (pt 2 1))%f)
  ≠ (of_Z 1, of_Z 0) ∧
  window10 !! 0 = Some (pt 1 1) ∧
  ((of_Z 0 + of_Z 1 * pt_y (pt 1 1))%f, (of_Z 0 + of_Z 1 * pt_x (pt 1 1))%f)
  ≠ (of_Z 1, of_Z 0).
Proof.
  assert (Hrun : evaluate_point_dev_n xy_solver 3 window10 samples10
                 = Ok (of_Z 1, of_Z 0)).
  { unfold evaluate_point_dev_n, xy_solver. cbv zeta.
    change (Z.of_nat (length samples10) <? 3 ^ 2)%Z with false.
    change (Z.to_nat (round_half (3 ^ 2))) with 4.
    cbn. unfold of_Z. do 2 f_equal; apply Fin_eq; lra. }
  split_and!.
  - reflexivity.
  - unfold differentiate_point.
    change (getitem (get_points_neighbours star10 3) 0)
      with (Ok (A := list nat) [0; 1; 2; 3; 4; 5; 6; 7; 8; 9]).
    rewrite result_bind_Ok.
    change (take_indices (points star10) [0; 1; 2; 3; 4; 5; 6; 7; 8; 9])
      with (Ok window10).
    rewrite result_bind_Ok.
    change (point_data_getitem star10 "disp_x") with (Ok samples10).
    rewrite result_bind_Ok.
    change (take_indices samples10 [0; 1; 2; 3; 4; 5; 6; 7; 8; 9])
      with (Ok samples10).
    rewrite result_bind_Ok.
    change (point_data_getitem star10 "disp_y") with (Ok samples10).
    rewrite result_bind_Ok.
    change (take_indices samples10 [0; 1; 2; 3; 4; 5; 6; 7; 8; 9])
      with (Ok samples10).
    by rewrite result_bind_Ok, Hrun.
  - unfold samples10. simpl length. lia.
  - unfold window10, samples10.
    repeat (apply Forall2_cons; split;
            [unfold bilinear, pt, pt_x, pt_y, of_Z; cbn; apply Fin_eq; lra |]).
    apply Forall2_nil. done.
  - exact Hrun.
  - reflexivity.
  - reflexivity.
  - unfold pt, pt_x, pt_y, of_Z. cbn. intros [= H1 H2]. lra.
  - reflexivity.
  - unfold pt, pt_x, pt_y, of_Z. cbn. intros [= H1 H2]. lra.
Qed.

(** ** Computations on the heap *)

Lemma M_bind_Ok {A B} (m : M A) (f : A → M B) h h' a :
  m h = (h', Ok a) → (m ≫= f) h = f a h'.
Proof. intros H. unfold mbind, M_bind. by rewrite H. Qed.

Lemma M_bind_Raise {A B} (m : M A) (f : A → M B) h h' e :
  m h = (h', Raise e) → (m ≫= f) h = (h', Raise e).
Proof. intros H. unfold mbind, M_bind. by rewrite H. Qed.

Lemma mapM_result_ext {A B} (f g : A → result B) (l : list A) :
  (∀ x, x ∈ l → f x = g x) → mapM f l = mapM g l.
Proof.
  induction l as [| x l IH]; intros Hfg; [done |]. cbn.
  rewrite (Hfg x) by left. rewrite IH; [done |].
  intros y Hy. apply Hfg. by right.
Qed.

Lemma heap_eq h1 h2 :
  meshes h1 = meshes h2 → dicts h1 = dicts h2 → h1 = h2.
Proof. destruct h1, h2. cbn. by intros -> ->. Qed.

(** Three assignments to one dictionary object amount to one update. *)
Lemma dict_setitem_thrice {A} d k1 v1 k2 v2 k3 v3 (k : M A) h :
  (dict_setitem d k1 v1 ;; dict_setitem d k2 v2 ;; dict_setitem d k3 v3 ;; k) h
  = k (Heap (meshes h)
         (<[d := <[k3 := v3]> (<[k2 := v2]> (<[k1 := v1]> (dicts h !!! d)))]>
            (dicts h))).
Proof.
  unfold mbind, M_bind, dict_setitem. cbn.
  rewrite !lookup_total_insert_eq, !insert_insert_eq. done.
Qed.

(** ** Window differentiator *)

Lemma point_data_getitem_Some m name a :
  point_data m !! name = Some a → point_data_getitem m name = Ok a.
Proof. intros H. unfold point_data_getitem. by rewrite H. Qed.

Lemma point_data_getitem_None m name :
  point_data m !! name = None →
  point_data_getitem m name = Raise (KeyError name).
Proof. intros H. unfold point_data_getitem. by rewrite H. Qed.

Section DifferentiatorFacts.
Context (lstsq : list (list float64) → list float64 → result params).
Context (window_size : Z) (points_list : list (list nat)).

Local Abbreviation diff := (differentiate_mesh lstsq window_size).

(** Differentiation reads the points and the two displacement fields
    only: the strain fields written on a mesh do not change it. *)
Lemma differentiate_mesh_write_strain e m :
  diff (write_strain e m) points_list = diff m points_list.
Proof.
  unfold differentiate_mesh, number_of_points. cbn.
  rewrite (mapM_result_ext _ (differentiate_point lstsq window_size m
                                points_list)); [done |].
  intros point _. unfold differentiate_point, point_data_getitem. cbn.
  by rewrite !lookup_insert_ne.
Qed.

Lemma write_strain_idemp e m :
  write_strain e (write_strain e m) = write_strain e m.
Proof.
  unfold write_strain, mesh_setitem. cbn. f_equal.
  apply map_eq. intros k. rewrite !lookup_insert.
  repeat case_decide; done.
Qed.

Lemma process_mesh_Ok l h e :
  diff (meshes h !!! l) points_list = Ok e →
  process_mesh lstsq window_size points_list l h
  = (Heap (<[l := write_strain e (meshes h !!! l)]> (meshes h)) (dicts h),
     Ok ()).
Proof.
  intros He. unfold process_mesh, mbind, M_bind, get_mesh, lift, update_mesh.
  cbn. rewrite He. cbn.
  rewrite !lookup_total_insert_eq, !insert_insert_eq. done.
Qed.

Lemma process_mesh_Raise l h e :
  diff (meshes h !!! l) points_list = Raise e →
  process_mesh lstsq window_size points_list l h = (h, Raise e).
Proof.
  intros He. unfold process_mesh, mbind, M_bind, get_mesh, lift.
  cbn. by rewrite He.
Qed.

(** A mesh with at least one point and without one of the two
    displacement fields cannot be differentiated. *)
Lemma differentiate_mesh_missing_field m :
  points m ≠ [] →
  point_data m !! "disp_x" = None ∨ point_data m !! "disp_y" = None →
  ∃ e, diff m points_list = Raise e.
Proof.
  intros Hne Hmiss. unfold differentiate_mesh, number_of_points.
  destruct (points m) as [| p ps] eqn:Hp; [done |]. cbn [length seq mapM].
  assert (∃ e, differentiate_point lstsq window_size m points_list 0
               = Raise e) as [e He].
  { unfold differentiate_point.
    destruct (getitem points_list 0) as [nb |]; [| eexists; reflexivity].
    rewrite result_bind_Ok.
    destruct (take_indices (points m) nb) as [pd |]; [| eexists; reflexivity].
    rewrite result_bind_Ok.
    destruct (point_data m !! "disp_x") as [ux |] eqn:Hx;
      [| rewrite (point_data_getitem_None _ _ Hx); eexists; reflexivity].
    rewrite (point_data_getitem_Some _ _ _ Hx), result_bind_Ok.
    destruct (take_indices ux nb) as [u |]; [| eexists; reflexivity].
    rewrite result_bind_Ok.
    destruct Hmiss as [Hm | Hm]; [congruence |].
    rewrite (point_data_getitem_None _ _ Hm). eexists; reflexivity. }
  exists e. by rewrite He.
Qed.
End DifferentiatorFacts.

Section DifferentiatorLoop.
Context (lstsq : list (list float64) → list float64 → result params).
Context (window_size : Z) (points_list : list (list nat)).
Context (m0 : gmap loc mesh) (D : gmap loc (gmap string pyval)).

Local Abbreviation diff := (differentiate_mesh lstsq window_size).
Local Abbreviation process := (process_mesh lstsq window_size points_list).
Local Abbreviation written :=
  (strains_written lstsq window_size points_list m0).

(** The loop over the snapshots when every differentiation succeeds:
    the visited snapshots end up written, the others are left alone. *)
Lemma for_in_process_Ok xs : ∀ ms,
  (∀ l, l ∈ xs → ∃ e, diff (m0 !!! l) points_list = Ok e) →
  (∀ l, ms !! l = m0 !! l ∨ written ms l) →
  ∃ ms', for_in xs process (Heap ms D) = (Heap ms' D, Ok ()) ∧
         (∀ l, l ∈ xs → written ms' l) ∧
         (∀ l, written ms l → written ms' l) ∧
         (∀ l, l ∉ xs → ms' !! l = ms !! l).
Proof.
  induction xs as [| x xs IH]; intros ms Hok Hinv.
  - exists ms. split_and!; try done. intros l Hl. by apply elem_of_nil in Hl.
  - destruct (Hok x) as [e He]; [left |].
    assert (Hcur : diff (ms !!! x) points_list = Ok e ∧
                   write_strain e (ms !!! x) = write_strain e (m0 !!! x)).
    { destruct (Hinv x) as [Heq | (e' & He' & Hw)].
      - by rewrite !lookup_total_alt, Heq.
      - assert (e' = e) as -> by congruence.
        rewrite (lookup_total_correct _ _ _ Hw).
        by rewrite differentiate_mesh_write_strain, write_strain_idemp. }
    destruct Hcur as [Hd Hw].
    set (ms1 := <[x := write_strain e (m0 !!! x)]> ms).
    assert (Hstep : ∀ l, written ms l → written ms1 l).
    { intros l (e' & He' & Hl). exists e'. split; [done |]. unfold ms1.
      destruct (decide (x = l)) as [-> | Hne].
      - rewrite lookup_insert_eq. congruence.
      - by rewrite lookup_insert_ne. }
    assert (Hx : written ms1 x).
    { exists e. split; [done |]. unfold ms1. by rewrite lookup_insert_eq. }
    destruct (IH ms1) as (ms' & Hrun & Hin & Hmono & Hout).
    { intros l Hl. apply Hok. by right. }
    { intros l. destruct (decide (x = l)) as [<- | Hne]; [by right |].
      destruct (Hinv l) as [Heq | Hwl]; [left | right; by apply Hstep].
      unfold ms1. by rewrite lookup_insert_ne. }
    exists ms'. split_and!.
    + cbn [for_in]. erewrite M_bind_Ok; [exact Hrun |].
      rewrite (process_mesh_Ok _ _ _ _ _ e) by done. cbn. by rewrite Hw.
    + intros l Hl. apply elem_of_cons in Hl as [-> | Hl]; [by apply Hmono |].
      by apply Hin.
    + intros l Hl. by apply Hmono, Hstep.
    + intros l Hl. apply not_elem_of_cons in Hl as [Hne Hl].
      rewrite (Hout l Hl). unfold ms1. by rewrite lookup_insert_ne.
Qed.

(** The loop over the snapshots when one of them cannot be
    differentiated: the loop raises and that snapshot is left alone. *)
Lemma for_in_process_Raise xs l : ∀ ms,
  l ∈ xs → ms !! l = m0 !! l →
  (∃ e, diff (m0 !!! l) points_list = Raise e) →
  ∃ ms' e, for_in xs process (Heap ms D) = (Heap ms' D, Raise e) ∧
           ms' !! l = m0 !! l.
Proof.
  induction xs as [| x xs IH]; intros ms Hl Heq [e He].
  - by apply elem_of_nil in Hl.
  - cbn [for_in]. destruct (decide (x = l)) as [-> | Hne].
    + exists ms, e. split; [| done].
      eapply M_bind_Raise, process_mesh_Raise. cbn.
      by rewrite lookup_total_alt, Heq, <- lookup_total_alt.
    + destruct (diff (ms !!! x) points_list) as [e' | e'] eqn:Hx.
      * destruct (IH (<[x := write_strain e' (ms !!! x)]> ms))
          as (ms' & e2 & Hrun & Hl').
        { apply elem_of_cons in Hl as [-> | Hl]; done. }
        { by rewrite lookup_insert_ne. }
        { by exists e. }
        exists ms', e2. split; [| done].
        erewrite M_bind_Ok; [exact Hrun |]. by apply process_mesh_Ok.
      * exists ms, e'. split; [| done].
        by eapply M_bind_Raise, process_mesh_Raise.
Qed.

(** The loop leaves the dictionaries alone. *)
Lemma for_in_process_dicts xs : ∀ h,
  dicts (for_in xs process h).1 = dicts h.
Proof.
  induction xs as [| x xs IH]; intros h; [done |]. cbn [for_in].
  destruct (diff (meshes h !!! x) points_list) as [e | e] eqn:Hx.
  - erewrite M_bind_Ok by (by apply process_mesh_Ok). by rewrite IH.
  - erewrite M_bind_Raise by (by apply process_mesh_Raise). done.
Qed.
End DifferentiatorLoop.

Section DifferentiatorRun.
Context (lstsq : list (list float64) → list float64 → result params).
Context (spatialdata : SpatialData) (data_range : string) (window_size : Z).
Context (h : heap) (first : loc).
Context (Hfirst : data_sets spatialdata !! 0 = Some first).

Local Abbreviation points_list :=
  (get_points_neighbours (meshes h !!! first) window_size).
Local Abbreviation stamped :=
  (<[_metadata spatialdata :=
       dic_filter_stamp window_size data_range
         (dicts h !!! _metadata spatialdata)]> (dicts h)).

(** With at least one snapshot, the run stamps the metadata and then
    branches on the data range. *)
Lemma window_differentation_unfold :
  window_differentation lstsq spatialdata data_range window_size h
  = (if String.eqb data_range "all" then
       for_in (data_sets spatialdata)
              (process_mesh lstsq window_size points_list)
     else if String.eqb data_range "last" then
       l ← lift (getitem (data_sets spatialdata)
                         (length (data_sets spatialdata) - 1));
       process_mesh lstsq window_size points_list l
     else mret ()) (Heap (meshes h) stamped).
Proof.
  unfold window_differentation.
  erewrite M_bind_Ok by (unfold lift, getitem; by rewrite Hfirst).
  erewrite M_bind_Ok by reflexivity.
  by rewrite dict_setitem_thrice.
Qed.

Lemma getitem_last l :
  last (data_sets spatialdata) = Some l →
  getitem (data_sets spatialdata) (length (data_sets spatialdata) - 1) = Ok l.
Proof.
  intros Hl. unfold getitem.
  by rewrite Nat.sub_1_r, <- last_lookup, Hl.
Qed.

Lemma last_is_Some : ∃ l, last (data_sets spatialdata) = Some l.
Proof.
  destruct (data_sets spatialdata) as [| x xs] eqn:Hds; [done |].
  destruct (last (x :: xs)) as [l |] eqn:Hl; [by exists l |].
  by apply last_None in Hl.
Qed.

Lemma window_differentation_dicts :
  dicts (window_differentation lstsq spatialdata data_range window_size h).1
  = stamped.
Proof.
  rewrite window_differentation_unfold.
  destruct (String.eqb data_range "all").
  { by rewrite for_in_process_dicts. }
  destruct (String.eqb data_range "last"); [| done].
  destruct last_is_Some as [l Hl].
  erewrite M_bind_Ok by (unfold lift; by rewrite (getitem_last l Hl)).
  destruct (differentiate_mesh lstsq window_size (meshes h !!! l) points_list)
    as [e | e] eqn:He.
  - by erewrite process_mesh_Ok.
  - by erewrite process_mesh_Raise.
Qed.

Lemma window_differentation_Ok :
  (∀ l, l ∈ selected_snapshots spatialdata data_range →
        ∃ e, differentiate_mesh lstsq window_size (meshes h !!! l) points_list
             = Ok e) →
  ∃ ms',
    window_differentation lstsq spatialdata data_range window_size h
    = (Heap ms' stamped, Ok ()) ∧
    (∀ l, l ∈ selected_snapshots spatialdata data_range →
          strains_written lstsq window_size points_list (meshes h) ms' l) ∧
    (∀ l, l ∉ selected_snapshots spatialdata data_range →
          ms' !! l = meshes h !! l).
Proof.
  intros Hok. rewrite window_differentation_unfold.
  unfold selected_snapshots in *.
  destruct (String.eqb data_range "all").
  { destruct (for_in_process_Ok lstsq window_size points_list (meshes h)
                stamped (data_sets spatialdata) (meshes h))
      as (ms' & Hrun & Hin & _ & Hout); [done | by left |].
    by exists ms'. }
  destruct (String.eqb data_range "last").
  - destruct last_is_Some as [l Hl]. rewrite Hl in *. cbn in *.
    destruct (Hok l) as [e He]; [by left |].
    exists (<[l := write_strain e (meshes h !!! l)]> (meshes h)). split_and!.
    + erewrite M_bind_Ok by (unfold lift; by rewrite (getitem_last l Hl)).
      by erewrite process_mesh_Ok.
    + intros l' Hl'. apply list_elem_of_singleton in Hl' as ->.
      exists e. by rewrite lookup_insert_eq.
    + intros l' Hl'. rewrite lookup_insert_ne; [done |].
      intros ->. apply Hl'. by left.
  - exists (meshes h). split_and!; [done | | done].
    intros l Hl. by apply elem_of_nil in Hl.
Qed.

Lemma window_differentation_Raise l :
  l ∈ selected_snapshots spatialdata data_range →
  (∃ e, differentiate_mesh lstsq window_size (meshes h !!! l) points_list
        = Raise e) →
  ∃ ms' e,
    window_differentation lstsq spatialdata data_range window_size h
    = (Heap ms' stamped, Raise e) ∧
    ms' !! l = meshes h !! l.
Proof.
  intros Hl Hfail. rewrite window_differentation_unfold.
  unfold selected_snapshots in *.
  destruct (String.eqb data_range "all").
  { by apply for_in_process_Raise. }
  destruct (String.eqb data_range "last"); [| by apply elem_of_nil in Hl].
  destruct last_is_Some as [l' Hl']. rewrite Hl' in *. cbn in Hl.
  apply list_elem_of_singleton in Hl as ->. destruct Hfail as [e He].
  exists (meshes h), e. split; [| done].
  erewrite M_bind_Ok by (unfold lift; by rewrite (getitem_last l' Hl')).
  by erewrite process_mesh_Raise.
Qed.
End DifferentiatorRun.

(** C6 (amended).  On a container with at least one snapshot,
    [window_differentation] sets the metadata keys [dic_filter],
    [window_size] and [data_range] whatever the data range is, and before
    any snapshot is processed, so also when processing raises later.  When
    the differentiation of the selected snapshots raises nothing, the call
    returns, every snapshot is differentiated and receives its three
    strain fields for ["all"], only the final one for ["last"], and no
    snapshot is touched for any other value. *)
Theorem window_differentation_selects lstsq spatialdata data_range
    window_size h first :
  data_sets spatialdata !! 0 = Some first →
  let points_list := get_points_neighbours (meshes h !!! first) window_size in
  let stamped :=
    <[_metadata spatialdata :=
        dic_filter_stamp window_size data_range
          (dicts h !!! _metadata spatialdata)]> (dicts h) in
  dicts (window_differentation lstsq spatialdata data_range window_size h).1
  = stamped ∧
  ((∀ l, l ∈ selected_snapshots spatialdata data_range →
         ∃ e, differentiate_mesh lstsq window_size (meshes h !!! l) points_list
              = Ok e) →
   ∃ ms',
     window_differentation lstsq spatialdata data_range window_size h
     = (Heap ms' stamped, Ok ()) ∧
     (∀ l, l ∈ selected_snapshots spatialdata data_range →
           strains_written lstsq window_size points_list (meshes h) ms' l) ∧
     (∀ l, l ∉ selected_snapshots spatialdata data_range →
           ms' !! l = meshes h !! l)) ∧
  (data_range ≠ "all" → data_range ≠ "last" →
   window_differentation lstsq spatialdata data_range window_size h
   = (Heap (meshes h) stamped, Ok ())).
Proof.
  intros Hfirst points_list stamped. split_and!.
  - by eapply window_differentation_dicts.
  - by apply window_differentation_Ok.
  - intros Hall Hlast.
    rewrite (window_differentation_unfold _ _ _ _ _ first Hfirst).
    apply String.eqb_neq in Hall, Hlast. by rewrite Hall, Hlast.
Qed.

Lemma window_differentation_selects_witness :
  ∃ h',
    window_differentation xy_solver series1 "all" 3 heap2 = (h', Ok ()) ∧
    (dicts h' !!! 0) !! "dic_filter" = Some (PBool true) ∧
    point_data (meshes h' !!! 0) !! "exx" = Some [NaN].
Proof.
  destruct (window_differentation_selects xy_solver series1 "all" 3 heap2 0
              eq_refl) as (_ & H & _).
  destruct H as (ms' & Hrun & Hin & _).
  { intros l Hl. apply list_elem_of_singleton in Hl as ->.
    by exists ([NaN], [NaN], [NaN]). }
  eexists. split; [exact Hrun |]. split; [done |].
  destruct (Hin 0) as (e & He & Hl); [by left |].
  assert (e = ([NaN], [NaN], [NaN])) as -> by (by injection He).
  cbn. by rewrite (lookup_total_correct _ _ _ Hl).
Defined.

(** C6, as stated, fails on a container without snapshots: the call
    raises on [data_sets[0]] before it reaches the metadata, which is
    left without the keys. *)
Lemma empty_series_is_not_stamped :
  window_differentation xy_solver series0 "all" 3 heap2
  = (heap2, Raise IndexError) ∧
  (dicts heap2 !!! _metadata series0) !! "dic_filter" = None.
Proof. split; reflexivity. Qed.




(** ** Rounding to binary64 *)

Section Rounding.
Local Open Scope R_scope.

Lemma Rnearest_even_near (z : Z) x :
  Rabs (x - IZR z) < 1 / 2 → Rnearest_even x = z.
Proof.
  intros H. apply Rabs_def2 in H as [H1 H2].
  unfold Rnearest_even. cbv zeta.
  pose proof (Zfloor_bound x) as [Hf1 Hf2].
  destruct (total_order_T (x - IZR (Zfloor x)) (1 / 2)) as [[Hlt | Heq] | Hgt].
  - apply Zfloor_eq. split; [| lra].
    assert (IZR (Zfloor x) < IZR z + 1) by lra.
    assert (IZR z < IZR (Zfloor x) + 1) by lra.
    rewrite <- plus_IZR in *. apply lt_IZR in H, H0.
    assert (Zfloor x = z) as <- by lia. done.
  - exfalso.
    assert (IZR (Zfloor x) < IZR z + 1) by lra.
    assert (IZR z < IZR (Zfloor x) + 1) by lra.
    rewrite <- plus_IZR in *. apply lt_IZR in H, H0.
    assert (Zfloor x = z) as <- by lia. lra.
  - assert (IZR (Zfloor x) + 1 < IZR z + 1) by lra.
    assert (IZR z < IZR (Zfloor x) + 1 + 1) by lra.
    rewrite <- !plus_IZR in *. apply lt_IZR in H, H0. lia.
Qed.

Lemma Rnearest_even_IZR z : Rnearest_even (IZR z) = z.
Proof.
  apply Rnearest_even_near. rewrite Rminus_diag, Rabs_R0. lra.
Qed.





Lemma ln_2_pos : 0 < ln 2.
Proof. rewrite <- ln_1. apply ln_increasing; lra. Qed.

Lemma powerRZ_2_exp e : powerRZ 2 e = exp (IZR e * ln 2).
Proof. rewrite powerRZ_Rpower by lra. reflexivity. Qed.

Lemma binade_unique e x :
  powerRZ 2 e <= x < powerRZ 2 (e + 1) → binade x = e.
Proof.
  intros [H1 H2]. pose proof ln_2_pos as H2p.
  assert (Hx : 0 < x).
  { eapply Rlt_le_trans; [| exact H1]. apply powerRZ_lt. lra. }
  unfold binade. apply Zfloor_eq.
  rewrite !powerRZ_2_exp in *. rewrite plus_IZR in H2.
  rewrite <- (exp_ln x) in H1, H2 by done.
  split.
  - apply (Rmult_le_reg_r (ln 2)); [done |].
    replace (ln x / ln 2 * ln 2) with (ln x) by (field; lra).
    destruct H1 as [H1 | H1]; [left; by apply exp_lt_inv | right; by apply exp_inv].
  - apply (Rmult_lt_reg_r (ln 2)); [done |].
    replace (ln x / ln 2 * ln 2) with (ln x) by (field; lra).
    apply exp_lt_inv. lra.
Qed.


Lemma two_52 : powerRZ 2 52 = IZR (2 ^ 52).
Proof.
  change 52%Z with (Z.of_nat 52). rewrite <- pow_powerRZ.
  by rewrite <- pow_IZR.
Qed.

Lemma two_53 : powerRZ 2 53 = IZR (2 ^ 53).
Proof.
  change 53%Z with (Z.of_nat 53). rewrite <- pow_powerRZ.
  by rewrite <- pow_IZR.
Qed.

Lemma powerRZ_2_split a b : powerRZ 2 (a + b) = powerRZ 2 a * powerRZ 2 b.
Proof. apply powerRZ_add. lra. Qed.

Lemma powerRZ_2_pos e : 0 < powerRZ 2 e.
Proof. apply powerRZ_lt. lra. Qed.




Lemma round_pos_spec e x :
  powerRZ 2 e <= x < powerRZ 2 (e + 1) →
  round_pos x
  = IZR (Rnearest_even (x * powerRZ 2 (52 - e))) * powerRZ 2 (e - 52).
Proof. intros H. unfold round_pos. by rewrite (binade_unique e x H). Qed.




Lemma Rsign_Gt r : 0 < r → Rsign r = Gt.
Proof. intros H. unfold Rsign. destruct (total_order_T r 0) as [[? | ?] | ?]; try done; lra. Qed.

Lemma round64_pos r : 0 < r → round64 r = round_pos r.
Proof. intros H. unfold round64. by rewrite Rsign_Gt. Qed.



(** A real with a significand of at most 53 bits is a fixed point. *)
Lemma round64_exact (m e : Z) :
  (2 ^ 52 <= m < 2 ^ 53)%Z →
  round64 (IZR m * powerRZ 2 (e - 52)) = IZR m * powerRZ 2 (e - 52).
Proof.
  intros [H1 H2]. pose proof (powerRZ_2_pos (e - 52)) as Hp.
  apply IZR_le in H1. apply IZR_lt in H2.
  assert (Hb : powerRZ 2 e <= IZR m * powerRZ 2 (e - 52) < powerRZ 2 (e + 1)).
  { assert (E1 : powerRZ 2 e = powerRZ 2 52 * powerRZ 2 (e - 52)).
    { rewrite <- powerRZ_2_split. f_equal. lia. }
    assert (E2 : powerRZ 2 (e + 1) = powerRZ 2 53 * powerRZ 2 (e - 52)).
    { rewrite <- powerRZ_2_split. f_equal. lia. }
    rewrite E1, E2, two_52, two_53. split; nra. }
  rewrite round64_pos by (pose proof (powerRZ_2_pos e); lra).
  rewrite (round_pos_spec e _ Hb). f_equal.
  rewrite Rmult_assoc, <- powerRZ_2_split.
  replace (e - 52 + (52 - e))%Z with 0%Z by lia. simpl.
  rewrite Rmult_1_r. f_equal. apply Rnearest_even_IZR.
Qed.

(** Rounding in a known binade. *)
Lemma round64_near (m e : Z) x :
  powerRZ 2 e <= x < powerRZ 2 (e + 1) →
  Rabs (x * powerRZ 2 (52 - e) - IZR m) < 1 / 2 →
  round64 x = IZR m * powerRZ 2 (e - 52).
Proof.
  intros Hb Hn.
  rewrite round64_pos by (pose proof (powerRZ_2_pos e); lra).
  rewrite (round_pos_spec e _ Hb). by rewrite (Rnearest_even_near m).
Qed.

Lemma powerRZ_2_IZR k : (0 <= k)%Z → powerRZ 2 k = IZR (2 ^ k).
Proof.
  intros H. rewrite <- (Z2Nat.id k H), <- pow_powerRZ. by rewrite <- pow_IZR.
Qed.

Lemma powerRZ_2_inv k : (k <= 0)%Z → powerRZ 2 k = / IZR (2 ^ (- k)).
Proof.
  intros H. rewrite <- (Z.opp_involutive k) at 1.
  rewrite powerRZ_neg', powerRZ_2_IZR by lia. done.
Qed.

Lemma round64_pow2 e : round64 (powerRZ 2 e) = powerRZ 2 e.
Proof.
  assert (E : powerRZ 2 e = IZR (2 ^ 52) * powerRZ 2 (e - 52)).
  { rewrite <- two_52, <- powerRZ_2_split. f_equal. lia. }
  rewrite E. apply round64_exact. lia.
Qed.

Lemma round64_1 : round64 1 = 1.
Proof. apply (round64_pow2 0). Qed.

Lemma round64_2 : round64 2 = 2.
Proof.
  assert (E : powerRZ 2 1 = 2) by (simpl; lra).
  pose proof (round64_pow2 1) as H. by rewrite E in H.
Qed.

Lemma round64_half : round64 (1 / 2) = 1 / 2.
Proof.
  assert (E : powerRZ 2 (-1) = 1 / 2) by (simpl; lra).
  pose proof (round64_pow2 (-1)) as H. by rewrite E in H.
Qed.

Lemma default_spacing_is_literal : round64 (1 / 5) = default_spacing.
Proof.
  rewrite (round64_near 7205759403792794 (-3)).
  - rewrite powerRZ_2_inv by lia.
    unfold default_spacing.
    change (2 ^ (- (-3 - 52)))%Z with 36028797018963968%Z.
    change (2 ^ 54)%Z with 18014398509481984%Z. lra.
  - rewrite !powerRZ_2_inv by lia.
    change (2 ^ (- -3))%Z with 8%Z. change (2 ^ (- (-3 + 1)))%Z with 4%Z. lra.
  - change (52 - -3)%Z with 55%Z. rewrite powerRZ_2_IZR by lia.
    change (2 ^ 55)%Z with 36028797018963968%Z.
    apply Rabs_def1; lra.
Qed.






End Rounding.

(** ** Grid interpolator: the sampling grid *)

Lemma Rtrunc_nonneg r : (0 <= r)%R → Rtrunc r = Zfloor r.
Proof. intros Hr. unfold Rtrunc. by destruct (Rle_dec 0 r). Qed.




Lemma axis_count x0 x1 s :
  (0 < s)%R → (x0 <= x1)%R →
  py_truediv (py_sub (Fin x1) (Fin x0)) (Fin s) ≫= py_int
  = Ok (Rtrunc (round64 (round64 (x1 - x0) / s))).
Proof.
  intros Hs Hx. unfold py_truediv.
  destruct (Req_dec_T s 0) as [-> | Hne]; [lra |].
  rewrite result_bind_Ok. unfold py_sub. cbn.
  destruct (Req_dec_T s 0); [done |]. reflexivity.
Qed.


(** On the unit interval the difference is exact; at the default spacing
    the quotient [1 / 0.2] lies below [5] and rounds to [5], so the axis
    has five points where the floor of the exact quotient is four. *)
Lemma unit_extent : round64 (1 - 0) = 1%R.
Proof. replace (1 - 0)%R with 1%R by lra. apply round64_1. Qed.


(** [np.linspace] between finite endpoints. *)
Lemma linspace_Fin x0 x1 (n : nat) :
  ∃ xr, linspace (Fin x0) (Fin x1) (Z.of_nat n) = Ok xr ∧
        length xr = n ∧
        (n = 1 → xr = [Fin x0]) ∧
        (2 <= n → ∀ i, i < n →
           xr !! i = Some (Fin (x0 + INR i * (x1 - x0) / INR (n - 1)))).
Proof.
  unfold linspace.
  destruct (Z.ltb_spec (Z.of_nat n) 0) as [Hneg | _]; [lia |].
  rewrite Nat2Z.id. eexists. split; [reflexivity |]. split_and!.
  - destruct (1 <? Z.of_nat n)%Z;
      by rewrite ?length_insert, length_map, length_seq.
  - intros ->. cbn. f_equal. apply Fin_eq.
    change (Z.of_nat 0) with 0%Z. lra.
  - intros Hn i Hi.
    destruct (Z.ltb_spec 1 (Z.of_nat n)) as [_ | Hle]; [| lia].
    destruct (Z.ltb_spec 0 (Z.of_nat n - 1)) as [_ | Hle]; [| lia].
    assert (Hd : INR (n - 1) ≠ 0%R) by (apply not_0_INR; lia).
    assert (Hdiv : IZR (Z.of_nat n - 1) = INR (n - 1)).
    { rewrite INR_IZR_INZ. f_equal. lia. }
    destruct (decide (i = pred n)) as [-> | Hne].
    + rewrite list_lookup_insert_eq
        by (rewrite length_map, length_seq; lia).
      f_equal. apply Fin_eq. replace (pred n) with (n - 1) by lia.
      field. done.
    + rewrite list_lookup_insert_ne by done.
      rewrite list_lookup_fmap, lookup_seq_lt by done. cbn.
      unfold of_Z. rewrite Hdiv.
      destruct (Req_dec_T (INR (n - 1)) 0); [done |]. cbn.
      f_equal. apply Fin_eq. rewrite <- INR_IZR_INZ. field. done.
Qed.




(** ** Grid interpolator: masking *)

Lemma assign_nan_where_Ok a sel a' :
  assign_nan_where a sel = Ok a' →
  length sel = length a ∧ length a' = length a ∧
  ∀ i (b : bool), sel !! i = Some b →
                  a' !! i = if b then Some NaN else a !! i.
Proof.
  unfold assign_nan_where. destruct (decide (length sel = length a)) as [Hl |];
    [| done].
  intros [= <-]. split_and!; [done | rewrite length_zip_with; lia |].
  intros i b Hb. rewrite lookup_zip_with, Hb.
  destruct (a !! i) as [x |] eqn:Hx.
  - by destruct b.
  - apply lookup_ge_None in Hx. apply lookup_lt_Some in Hb. lia.
Qed.

Lemma mask_field_excluded cur field :
  field ∈ excluded_fields → mask_field cur field = Ok cur.
Proof. intros H. unfold mask_field. by rewrite bool_decide_eq_true_2. Qed.

Lemma mask_field_Ok cur field cur1 :
  field ∉ excluded_fields →
  mask_field cur field = Ok cur1 →
  ∃ a valid a',
    point_data cur !! field = Some a ∧
    point_data cur !! "vtkValidPointMask" = Some valid ∧
    assign_nan_where a (eq_False <$> valid) = Ok a' ∧
    cur1 = mesh_setitem field a' cur.
Proof.
  intros Hex. unfold mask_field, point_data_getitem.
  rewrite bool_decide_eq_false_2 by done.
  destruct (point_data cur !! field) as [a |]; [| done].
  rewrite result_bind_Ok.
  destruct (point_data cur !! "vtkValidPointMask") as [valid |]; [| done].
  rewrite result_bind_Ok.
  destruct (assign_nan_where a (eq_False <$> valid)) as [a' |] eqn:Ha; [| done].
  rewrite result_bind_Ok. intros [= <-]. by exists a, valid, a'.
Qed.

Lemma field_masked_step res cur field a' a valid :
  field ∉ excluded_fields →
  point_data res !! field = Some a →
  point_data res !! "vtkValidPointMask" = Some valid →
  assign_nan_where a (eq_False <$> valid) = Ok a' →
  point_data cur !! field = Some a' →
  field_masked res cur field.
Proof.
  intros Hex Ha Hv Hassign Hcur b Hb. assert (b = a) as -> by congruence.
  rewrite bool_decide_eq_false_2 by done.
  apply assign_nan_where_Ok in Hassign as (Hl1 & Hl2 & Hlk).
  rewrite length_fmap in Hl1.
  exists valid, a'. split_and!; try done.
  intros i v Hi. apply Hlk. by rewrite list_lookup_fmap, Hi.
Qed.

(** The masking loop over a list of distinct field names. *)
Lemma mask_fields_spec fields : ∀ cur out,
  NoDup fields →
  mask_fields fields cur = Ok out →
  points out = points cur ∧
  (∀ g, g ∉ fields → point_data out !! g = point_data cur !! g) ∧
  (∀ g, g ∈ fields → field_masked cur out g).
Proof.
  induction fields as [| f fields IH]; intros cur out Hnd Hrun.
  - injection Hrun as <-. split_and!; try done.
    intros g Hg. by apply elem_of_nil in Hg.
  - apply NoDup_cons in Hnd as [Hf Hnd]. cbn [mask_fields] in Hrun.
    destruct (mask_field cur f) as [cur1 |] eqn:Hstep; [| done].
    rewrite result_bind_Ok in Hrun.
    destruct (IH cur1 out Hnd Hrun) as (Hpts & Hout & Hin).
    destruct (decide (f ∈ excluded_fields)) as [Hex | Hex].
    + rewrite mask_field_excluded in Hstep by done. injection Hstep as <-.
      split_and!; [done | |].
      * intros g Hg. apply not_elem_of_cons in Hg as [_ Hg]. by apply Hout.
      * intros g Hg. apply elem_of_cons in Hg as [-> | Hg]; [| by apply Hin].
        intros a Ha. rewrite bool_decide_eq_true_2 by done.
        by rewrite Hout.
    + apply mask_field_Ok in Hstep as (a & valid & a' & Ha & Hv & Has & ->);
        [| done].
      assert (Hmask : f ≠ "vtkValidPointMask").
      { intros ->. apply Hex. unfold excluded_fields. do 2 right. left. }
      split_and!; [done | |].
      * intros g Hg. apply not_elem_of_cons in Hg as [Hne Hg].
        rewrite Hout by done. cbn. by rewrite lookup_insert_ne.
      * intros g Hg. apply elem_of_cons in Hg as [-> | Hg].
        -- eapply field_masked_step; try done.
           rewrite Hout by done. cbn. by rewrite lookup_insert_eq.
        -- assert (g ≠ f) by (by intros ->).
           intros b Hb. specialize (Hin g Hg b). cbn in Hin.
           rewrite !lookup_insert_ne in Hin by done. by apply Hin.
Qed.

(** The masking loop over all the fields of a resampled snapshot. *)
Lemma mask_all_fields_spec res out :
  mask_fields (array_names res) res = Ok out →
  points out = points res ∧ ∀ field, field_masked res out field.
Proof.
  intros Hrun.
  destruct (mask_fields_spec _ _ _ (NoDup_fst_map_to_list _) Hrun)
    as (Hpts & _ & Hin).
  split; [done |]. intros field a Ha. apply Hin; [| done].
  unfold array_names. apply list_elem_of_fmap. exists (field, a).
  split; [done |]. by apply elem_of_map_to_list.
Qed.

(** ** Grid interpolator: the run *)

Section InterpolatorRun.
Context (sample : StructuredGrid → mesh → mesh) (grid : StructuredGrid).
Context (D : gmap loc (gmap string pyval)).

Local Abbreviation masked m :=
  (mask_fields (array_names (sample grid m)) (sample grid m)).

Lemma resample_Ok l ms r :
  masked (ms !!! l) = Ok r →
  resample sample grid l (Heap ms D)
  = (Heap (<[fresh (dom ms) := r]> ms) D, Ok (fresh (dom ms))).
Proof.
  intros Hr. unfold resample, mbind, M_bind, get_mesh, lift, alloc_mesh.
  cbn. by rewrite Hr.
Qed.

Lemma resample_Raise l ms e :
  masked (ms !!! l) = Raise e →
  resample sample grid l (Heap ms D) = (Heap ms D, Raise e).
Proof.
  intros Hr. unfold resample, mbind, M_bind, get_mesh, lift.
  cbn. by rewrite Hr.
Qed.

Lemma mapM_M_cons {A B} (f : A → M B) x xs :
  mapM f (x :: xs) = (y ← f x; k ← mapM f xs; mret (y :: k)).
Proof. reflexivity. Qed.

(** The loop over the snapshots leaves the dictionaries and the meshes
    that exist before it alone. *)
Lemma mapM_resample_frame xs : ∀ ms,
  dicts (mapM (resample sample grid) xs (Heap ms D)).1 = D ∧
  ∀ l, l ∈ dom ms →
       meshes (mapM (resample sample grid) xs (Heap ms D)).1 !! l = ms !! l.
Proof.
  induction xs as [| x xs IH]; intros ms; [done |].
  rewrite mapM_M_cons.
  destruct (masked (ms !!! x)) as [r | e] eqn:Hr.
  - erewrite M_bind_Ok by (by apply resample_Ok).
    set (ms1 := <[fresh (dom ms) := r]> ms).
    destruct (IH ms1) as [Hd Hm].
    assert (Hkeep : ∀ l, l ∈ dom ms → l ∈ dom ms1 ∧ ms1 !! l = ms !! l).
    { intros l Hl. unfold ms1. rewrite dom_insert_L. split.
      - by apply elem_of_union_r.
      - rewrite lookup_insert_ne; [done |].
        intros <-. by apply (is_fresh (dom ms)). }
    destruct (mapM (resample sample grid) xs (Heap ms1 D)) as [h2 [ls | e]]
      eqn:Hrest.
    + erewrite M_bind_Ok by done. cbn in *. split; [done |].
      intros l Hl. destruct (Hkeep l Hl) as [Hl1 <-]. by apply Hm.
    + erewrite M_bind_Raise by done. cbn in *. split; [done |].
      intros l Hl. destruct (Hkeep l Hl) as [Hl1 <-]. by apply Hm.
  - erewrite M_bind_Raise by (by apply resample_Raise). done.
Qed.

(** When the loop returns, every snapshot has been resampled onto the
    grid, masked, and stored as a new object. *)
Lemma mapM_resample_new xs : ∀ ms h' ls,
  mapM (resample sample grid) xs (Heap ms D) = (h', Ok ls) →
  Forall2 (fun l l' => l ∈ dom ms →
             (l' ∉ dom ms) ∧ masked (ms !!! l) = Ok (meshes h' !!! l'))
          xs ls.
Proof.
  induction xs as [| x xs IH]; intros ms h' ls Hrun.
  - injection Hrun as <- <-. constructor.
  - rewrite mapM_M_cons in Hrun.
    destruct (masked (ms !!! x)) as [r | e] eqn:Hr;
      [| by erewrite M_bind_Raise in Hrun by (by apply resample_Raise)].
    erewrite M_bind_Ok in Hrun by (by apply resample_Ok).
    set (l1 := fresh (dom ms)) in *. set (ms1 := <[l1 := r]> ms) in *.
    assert (Hl1 : l1 ∉ dom ms) by apply is_fresh.
    assert (Hdom : dom ms1 = {[l1]} ∪ dom ms) by apply dom_insert_L.
    destruct (mapM (resample sample grid) xs (Heap ms1 D)) as [h2 [ks | e]]
      eqn:Hrest; [| by erewrite M_bind_Raise in Hrun by done].
    erewrite M_bind_Ok in Hrun by done. injection Hrun as <- <-.
    pose proof (mapM_resample_frame xs ms1) as [_ Hm]. rewrite Hrest in Hm.
    cbn in Hm. constructor.
    + intros _. split; [done |].
      rewrite (lookup_total_alt (meshes h2)), Hm
        by (rewrite Hdom; by apply elem_of_union_l, elem_of_singleton).
      unfold ms1. by rewrite lookup_insert_eq.
    + eapply Forall2_impl; [by apply (IH ms1 h2 ks) |].
      intros l l' Hrel Hl. cbn in Hrel.
      destruct Hrel as [Hfresh Hmasked];
        [rewrite Hdom; by apply elem_of_union_r |].
      split.
      * intros Hl'. apply Hfresh. rewrite Hdom. by apply elem_of_union_r.
      * rewrite <- Hmasked. unfold ms1.
        rewrite lookup_total_insert_ne; [done |]. by intros ->.
Qed.

Lemma mapM_resample_Ok xs ms h' ls :
  (∀ l, l ∈ xs → l ∈ dom ms) →
  mapM (resample sample grid) xs (Heap ms D) = (h', Ok ls) →
  Forall2 (fun l l' => (l' ∉ dom ms) ∧ masked (ms !!! l) = Ok (meshes h' !!! l'))
          xs ls.
Proof.
  intros Hwf Hrun. apply mapM_resample_new in Hrun.
  apply Forall2_same_length_lookup. split; [by eapply Forall2_length |].
  intros k l l' Hl Hl'.
  eapply (Forall2_lookup_lr _ _ _ _ _ _ Hrun Hl Hl'), Hwf.
  by eapply list_elem_of_lookup_2.
Qed.

(** The objects that the loop creates are new, pairwise distinct, and the
    only additions to the heap. *)
Lemma mapM_resample_distinct xs : ∀ ms h' ls,
  mapM (resample sample grid) xs (Heap ms D) = (h', Ok ls) →
  NoDup ls ∧ (∀ l', l' ∈ ls → l' ∉ dom ms) ∧
  dom (meshes h') = dom ms ∪ list_to_set ls.
Proof.
  induction xs as [| x xs IH]; intros ms h' ls Hrun.
  - injection Hrun as <- <-. cbn. split_and!.
    + constructor.
    + intros l' Hl'. by apply elem_of_nil in Hl'.
    + by rewrite union_empty_r_L.
  - rewrite mapM_M_cons in Hrun.
    destruct (masked (ms !!! x)) as [r | e] eqn:Hr;
      [| by erewrite M_bind_Raise in Hrun by (by apply resample_Raise)].
    erewrite M_bind_Ok in Hrun by (by apply resample_Ok).
    set (l1 := fresh (dom ms)) in *. set (ms1 := <[l1 := r]> ms) in *.
    assert (Hl1 : l1 ∉ dom ms) by apply is_fresh.
    assert (Hdom : dom ms1 = {[l1]} ∪ dom ms) by apply dom_insert_L.
    destruct (mapM (resample sample grid) xs (Heap ms1 D)) as [h2 [ks | e]]
      eqn:Hrest; [| by erewrite M_bind_Raise in Hrun by done].
    erewrite M_bind_Ok in Hrun by done. injection Hrun as <- <-.
    destruct (IH ms1 h2 ks Hrest) as (Hnd & Hnew & Hd).
    split_and!.
    + apply NoDup_cons. split; [| done].
      intros Hin. apply (Hnew l1 Hin). rewrite Hdom.
      by apply elem_of_union_l, elem_of_singleton.
    + intros l' Hl'. apply elem_of_cons in Hl' as [-> | Hl']; [done |].
      intros Hold. apply (Hnew l' Hl'). rewrite Hdom.
      by apply elem_of_union_r.
    + rewrite Hd, Hdom, list_to_set_cons, (assoc_L (∪)).
      by rewrite (comm_L (∪) (dom ms)).
Qed.

(** The loop, for snapshots that exist: the object it returns for a
    snapshot holds the masked resampling of that snapshot. *)
Lemma mapM_resample_paired xs ms h' ls :
  (∀ l, l ∈ xs → l ∈ dom ms) →
  mapM (resample sample grid) xs (Heap ms D) = (h', Ok ls) →
  Forall2 (fun l l' =>
             (l' ∉ dom ms) ∧
             ∃ out, masked (ms !!! l) = Ok out ∧ meshes h' !! l' = Some out)
          xs ls.
Proof.
  intros Hwf Hrun.
  destruct (mapM_resample_distinct xs ms h' ls Hrun) as (_ & _ & Hd).
  pose proof (mapM_resample_Ok xs ms h' ls Hwf Hrun) as Hall.
  apply Forall2_same_length_lookup. split; [by eapply Forall2_length |].
  intros k l l' Hl Hl'.
  destruct (Forall2_lookup_lr _ _ _ _ _ _ Hall Hl Hl') as [Hnew Hm].
  split; [done |]. exists (meshes h' !!! l'). split; [done |].
  apply lookup_lookup_total_dom. rewrite Hd.
  apply elem_of_union_r, elem_of_list_to_set.
  by eapply list_elem_of_lookup_2.
Qed.
End InterpolatorRun.

Section InterpolatorFacts.
Context (sample : StructuredGrid → mesh → mesh).
Context (spatialdata : SpatialData) (spacing : float64) (h : heap).
Context (first : loc) (Hfirst : data_sets spatialdata !! 0 = Some first).

Local Abbreviation stamped :=
  (<[_metadata spatialdata :=
       interpolated_stamp spacing (dicts h !!! _metadata spatialdata)]>
     (dicts h)).

(** Once the grid is built, the run stamps the metadata object of the
    input and resamples every snapshot onto that grid. *)
Lemma interpolate_unfold grid :
  sampling_grid (bounds (meshes h !!! first)) spacing = Ok grid →
  interpolate_spatialdata_grid sample spatialdata spacing h
  = (data_sets_int ← mapM (resample sample grid) (data_sets spatialdata);
     mret (mkSpatialData data_sets_int (_index spatialdata)
             (_time spatialdata) (_load spatialdata)
             (_metadata spatialdata)))
      (Heap (meshes h) stamped).
Proof.
  intros Hgrid. unfold interpolate_spatialdata_grid.
  erewrite M_bind_Ok by (unfold lift, getitem; by rewrite Hfirst).
  erewrite M_bind_Ok by reflexivity.
  erewrite M_bind_Ok by (unfold lift; by rewrite Hgrid).
  by rewrite dict_setitem_thrice.
Qed.

Lemma interpolate_no_grid e :
  sampling_grid (bounds (meshes h !!! first)) spacing = Raise e →
  interpolate_spatialdata_grid sample spatialdata spacing h = (h, Raise e).
Proof.
  intros Hgrid. unfold interpolate_spatialdata_grid.
  erewrite M_bind_Ok by (unfold lift, getitem; by rewrite Hfirst).
  erewrite M_bind_Ok by reflexivity.
  by erewrite M_bind_Raise by (unfold lift; by rewrite Hgrid).
Qed.

(** Once the grid is built, the metadata object of the input carries the
    three keys, whether the run returns or raises, and the meshes of the
    input are as they were. *)
Lemma interpolate_frame grid :
  sampling_grid (bounds (meshes h !!! first)) spacing = Ok grid →
  dicts (interpolate_spatialdata_grid sample spatialdata spacing h).1
  = stamped ∧
  ∀ l, l ∈ dom (meshes h) →
       meshes (interpolate_spatialdata_grid sample spatialdata spacing h).1
         !! l = meshes h !! l.
Proof.
  intros Hgrid. rewrite (interpolate_unfold grid Hgrid).
  pose proof (mapM_resample_frame sample grid stamped
                (data_sets spatialdata) (meshes h)) as Hframe.
  destruct (mapM (resample sample grid) (data_sets spatialdata)
              (Heap (meshes h) stamped)) as [h2 [ls | e]] eqn:Hrun.
  - by erewrite M_bind_Ok by done.
  - by erewrite M_bind_Raise by done.
Qed.

(** A run that returns hands back a container with one new snapshot per
    input snapshot, the index, time and load sequences of the input, and
    the metadata object of the input itself. *)
Lemma interpolate_Ok h' sd' :
  (∀ l, l ∈ data_sets spatialdata → l ∈ dom (meshes h)) →
  interpolate_spatialdata_grid sample spatialdata spacing h = (h', Ok sd') →
  ∃ grid,
    sampling_grid (bounds (meshes h !!! first)) spacing = Ok grid ∧
    _index sd' = _index spatialdata ∧ _time sd' = _time spatialdata ∧
    _load sd' = _load spatialdata ∧ _metadata sd' = _metadata spatialdata ∧
    Forall2 (fun l l' =>
               (l' ∉ dom (meshes h)) ∧
               mask_fields (array_names (sample grid (meshes h !!! l)))
                           (sample grid (meshes h !!! l))
               = Ok (meshes h' !!! l'))
            (data_sets spatialdata) (data_sets sd').
Proof.
  intros Hwf Hrun.
  destruct (sampling_grid (bounds (meshes h !!! first)) spacing)
    as [grid | e] eqn:Hgrid;
    [| by rewrite (interpolate_no_grid e Hgrid) in Hrun].
  rewrite (interpolate_unfold grid Hgrid) in Hrun.
  destruct (mapM (resample sample grid) (data_sets spatialdata)
              (Heap (meshes h) stamped)) as [h2 [ls | e]] eqn:Hloop;
    [| by erewrite M_bind_Raise in Hrun by done].
  erewrite M_bind_Ok in Hrun by done. injection Hrun as <- <-.
  exists grid. split_and!; try done.
  by eapply mapM_resample_Ok.
Qed.

(** The same, with the new objects named: they are pairwise distinct,
    they are all that the heap gains, and each holds the masked
    resampling of the input snapshot at the same position. *)
Lemma interpolate_new_objects h' sd' :
  (∀ l, l ∈ data_sets spatialdata → l ∈ dom (meshes h)) →
  interpolate_spatialdata_grid sample spatialdata spacing h = (h', Ok sd') →
  ∃ grid,
    sampling_grid (bounds (meshes h !!! first)) spacing = Ok grid ∧
    NoDup (data_sets sd') ∧
    dom (meshes h') = dom (meshes h) ∪ list_to_set (data_sets sd') ∧
    Forall2 (fun l l' =>
               (l' ∉ dom (meshes h)) ∧
               ∃ out,
                 mask_fields (array_names (sample grid (meshes h !!! l)))
                             (sample grid (meshes h !!! l)) = Ok out ∧
                 meshes h' !! l' = Some out)
            (data_sets spatialdata) (data_sets sd').
Proof.
  intros Hwf Hrun.
  destruct (sampling_grid (bounds (meshes h !!! first)) spacing)
    as [grid | e] eqn:Hgrid;
    [| by rewrite (interpolate_no_grid e Hgrid) in Hrun].
  rewrite (interpolate_unfold grid Hgrid) in Hrun.
  destruct (mapM (resample sample grid) (data_sets spatialdata)
              (Heap (meshes h) stamped)) as [h2 [ls | e]] eqn:Hloop;
    [| by erewrite M_bind_Raise in Hrun by done].
  erewrite M_bind_Ok in Hrun by done. injection Hrun as <- <-.
  destruct (mapM_resample_distinct sample grid stamped _ _ _ _ Hloop)
    as (Hnd & _ & Hd).
  exists grid. split_and!; try done.
  by eapply mapM_resample_paired.
Qed.
End InterpolatorFacts.

(** A run that returns had a first snapshot. *)
Lemma interpolate_Ok_first sample spatialdata spacing h h' sd' :
  interpolate_spatialdata_grid sample spatialdata spacing h = (h', Ok sd') →
  ∃ first, data_sets spatialdata !! 0 = Some first.
Proof.
  intros Hrun. destruct (data_sets spatialdata !! 0) as [first |] eqn:Hfirst;
    [by exists first |].
  unfold interpolate_spatialdata_grid in Hrun.
  erewrite M_bind_Raise in Hrun; [done |].
  unfold lift, getitem. by rewrite Hfirst.
Qed.

(** The test [v == False] holds of zero alone. *)
Lemma eq_False_true v : eq_False v = true ↔ v = Fin 0.
Proof.
  destruct v as [| | | r]; cbn; try (split; done).
  destruct (Req_dec_T r 0) as [-> | Hne]; [done |].
  split; [done |]. intros [= ->]. done.
Qed.

Lemma eq_False_false v : eq_False v = false ↔ v ≠ Fin 0.
Proof.
  rewrite <- eq_False_true. destruct (eq_False v); split; done.
Qed.

(** The fields that the masking loop passes over. *)
Lemma excluded_fields_spec field :
  field ∈ excluded_fields
  ↔ field = "ObjectId" ∨ field = "vtkGhostType" ∨ field = "vtkValidPointMask".
Proof.
  unfold excluded_fields. rewrite !elem_of_cons, elem_of_nil. tauto.
Qed.

(** The grid of the unit square at spacing one half: two points along
    each axis, at [0] and [1]. *)
Lemma unit_square_count :
  Rtrunc (round64 (round64 (1 - 0) / (1 / 2))) = Z.of_nat 2.
Proof.
  rewrite unit_extent. replace (1 / (1 / 2))%R with 2%R by (field; lra).
  rewrite round64_2, Rtrunc_nonneg by lra. apply ZfloorZ.
Qed.

Lemma sampling_grid_unit_square z0 z1 :
  sampling_grid (Bounds (Fin 0) (Fin 1) (Fin 0) (Fin 1) z0 z1) (Fin (1 / 2))
  = Ok (structured_grid [Fin 0; Fin 1] [Fin 0; Fin 1] z1).
Proof.
  assert (Hxr : linspace (Fin 0) (Fin 1) (Z.of_nat 2) = Ok [Fin 0; Fin 1]).
  { destruct (linspace_Fin 0 1 2) as (xr & -> & Hlen & _ & Hlk). f_equal.
    destruct xr as [| a [| b [| c xr]]]; try done.
    pose proof (Hlk (le_n 2) 0 ltac:(lia)) as Ha.
    pose proof (Hlk (le_n 2) 1 ltac:(lia)) as Hb.
    cbn in Ha, Hb. injection Ha as ->. injection Hb as ->.
    f_equal; [| f_equal]; apply Fin_eq; lra. }
  unfold sampling_grid. cbn [x_min x_max y_min y_max z_max].
  rewrite axis_count by lra. rewrite result_bind_Ok, unit_square_count, Hxr.
  by rewrite result_bind_Ok, result_bind_Ok, Hxr.
Qed.

(** The unit square at spacing two: no point along either axis. *)
Lemma sampling_grid_unit_square_coarse z0 z1 :
  sampling_grid (Bounds (Fin 0) (Fin 1) (Fin 0) (Fin 1) z0 z1) (Fin 2)
  = Ok (structured_grid [] [] z1).
Proof.
  assert (Hn : Rtrunc (round64 (round64 (1 - 0) / 2)) = 0%Z).
  { rewrite unit_extent, round64_half, Rtrunc_nonneg by lra.
    apply Zfloor_eq. lra. }
  unfold sampling_grid. cbn [x_min x_max y_min y_max z_max].
  rewrite axis_count by lra. by rewrite result_bind_Ok, Hn.
Qed.



(** C4.  The grid is not at the given spacing.  On a first snapshot with
    the bounding box of the unit square and at spacing one half, the grid
    has [int(1 / 0.5) = 2] coordinates along each axis and spans the
    square, but the coordinates are [0] and [1]: they lie [1] apart and
    not [0.5], and [0.5] is not among them.  [np.linspace] spreads the
    [n = int((max - min) / spacing)] values over the whole interval, so
    neighbours are [(max - min) / (n - 1)] apart.  At spacing two the grid
    has no point at all. *)
Theorem grid_pitch_is_not_the_spacing :
  sampling_grid (bounds (meshes heap2 !!! 0)) (Fin (1 / 2))
  = Ok (structured_grid [Fin 0; Fin 1] [Fin 0; Fin 1] (Fin 0)) ∧
  Rtrunc (round64 (round64 (1 - 0) / (1 / 2))) = 2%Z ∧
  (1 - 0 ≠ 1 / 2)%R ∧
  (Fin (1 / 2) ∉ [Fin 0; Fin 1]) ∧
  sampling_grid (bounds (meshes heap2 !!! 0)) (Fin 2)
  = Ok (structured_grid [] [] (Fin 0)).
Proof.
  split_and!.
  - apply sampling_grid_unit_square.
  - apply unit_square_count.
  - lra.
  - intros Hin. apply elem_of_cons in Hin as [[= H] | Hin]; [lra |].
    apply list_elem_of_singleton in Hin as [= H]. lra.
  - apply sampling_grid_unit_square_coarse.
Qed.

(** C7.  When the interpolation returns, the snapshot at each position of
    the new container is the resampling, on the grid built from the first
    snapshot, of the input snapshot at that position, with every field but
    [ObjectId], [vtkGhostType] and [vtkValidPointMask] overwritten with
    not-a-number at the points whose validity mask is zero (false) and
    left as it was at the other points; those three fields are left as
    they were, and no field is added. *)
Theorem invalid_points_masked sample spatialdata spacing h h' sd' :
  (∀ l, l ∈ data_sets spatialdata → l ∈ dom (meshes h)) →
  interpolate_spatialdata_grid sample spatialdata spacing h = (h', Ok sd') →
  ∃ first grid,
    data_sets spatialdata !! 0 = Some first ∧
    sampling_grid (bounds (meshes h !!! first)) spacing = Ok grid ∧
    Forall2 (fun l l' =>
      let res := sample grid (meshes h !!! l) in
      ∃ out,
        meshes h' !! l' = Some out ∧
        points out = points res ∧
        (∀ field, point_data res !! field = None →
                  point_data out !! field = None) ∧
        ∀ field a, point_data res !! field = Some a →
          (field = "ObjectId" ∨ field = "vtkGhostType" ∨
           field = "vtkValidPointMask" →
           point_data out !! field = Some a) ∧
          (field ≠ "ObjectId" → field ≠ "vtkGhostType" →
           field ≠ "vtkValidPointMask" →
           ∃ valid a',
             point_data res !! "vtkValidPointMask" = Some valid ∧
             point_data out !! field = Some a' ∧
             length valid = length a ∧ length a' = length a ∧
             ∀ i v, valid !! i = Some v →
               (v = Fin 0 → a' !! i = Some NaN) ∧
               (v ≠ Fin 0 → a' !! i = a !! i)))
      (data_sets spatialdata) (data_sets sd').
Proof.
  intros Hwf Hrun.
  destruct (interpolate_Ok_first _ _ _ _ _ _ Hrun) as [first Hfirst].
  destruct (interpolate_new_objects sample spatialdata spacing h first Hfirst
              h' sd' Hwf Hrun) as (grid & Hgrid & _ & _ & Hall).
  exists first, grid. split_and!; [done | done |].
  eapply Forall2_impl; [exact Hall |].
  intros l l' (_ & out & Hmask & Hout). cbv zeta.
  exists out. split; [done |].
  destruct (mask_fields_spec _ _ _ (NoDup_fst_map_to_list _) Hmask)
    as (Hpts & Hother & _).
  apply mask_all_fields_spec in Hmask as [_ Hfields].
  split_and!; [done | |].
  - intros field Hnone. rewrite Hother; [done |].
    unfold array_names. intros Hin.
    apply list_elem_of_fmap in Hin as ([g a] & -> & Hin).
    apply elem_of_map_to_list in Hin. cbn in Hnone. congruence.
  - intros field a Ha. specialize (Hfields field a Ha). split.
    + intros Hex. apply excluded_fields_spec in Hex.
      by rewrite bool_decide_eq_true_2 in Hfields.
    + intros H1 H2 H3.
      rewrite bool_decide_eq_false_2 in Hfields
        by (rewrite excluded_fields_spec; tauto).
      destruct Hfields as (valid & a' & Hv & Ha' & Hl1 & Hl2 & Hlk).
      exists valid, a'. split_and!; try done.
      intros i v Hi. specialize (Hlk i v Hi). split.
      * intros Hz. apply eq_False_true in Hz. by rewrite Hz in Hlk.
      * intros Hz. apply eq_False_false in Hz. by rewrite Hz in Hlk.
Qed.

(** On the unit square at spacing one half, with a resampling that marks
    the first grid point as invalid, the displacement of the new
    snapshot is not-a-number at that point and the resampled value at the
    next one. *)
Lemma invalid_points_masked_witness :
  ∃ h' sd' l' out a',
    interpolate_spatialdata_grid probe series1 (Fin (1 / 2)) heap2
    = (h', Ok sd') ∧
    data_sets sd' = [l'] ∧ meshes h' !! l' = Some out ∧
    point_data out !! "disp_x" = Some a' ∧
    a' !! 0 = Some NaN ∧ a' !! 1 = Some (of_Z 7).
Proof.
  assert (∃ h' sd', interpolate_spatialdata_grid probe series1 (Fin (1 / 2))
                      heap2 = (h', Ok sd')) as (h' & sd' & Hrun).
  { rewrite (interpolate_unfold probe series1 _ heap2 0 eq_refl _
               (sampling_grid_unit_square _ _)).
    by eexists _, _. }
  destruct (invalid_points_masked probe series1 (Fin (1 / 2)) heap2 h' sd')
    as (first & grid & Hfirst & Hgrid & Hall); [| done |].
  { intros l Hl. apply list_elem_of_singleton in Hl as ->.
    apply elem_of_dom. by eexists. }
  injection Hfirst as <-.
  change (bounds (meshes heap2 !!! 0))
    with (Bounds (Fin 0) (Fin 1) (Fin 0) (Fin 1) (Fin 0) (Fin 0)) in Hgrid.
  rewrite sampling_grid_unit_square in Hgrid. injection Hgrid as <-.
  change (data_sets series1) with [0] in Hall.
  apply Forall2_cons_inv_l in Hall as (l' & ls & Hl' & Hnil & Hsd).
  apply Forall2_nil_inv_l in Hnil as ->.
  cbv zeta in Hl'. destruct Hl' as (out & Hout & _ & _ & Hfields).
  destruct (Hfields "disp_x" (replicate 4 (of_Z 7)) eq_refl) as [_ Hmasked].
  destruct Hmasked as (valid & a' & Hv & Ha' & _ & _ & Hlk); try done.
  injection Hv as <-.
  exists h', sd', l', out, a'. split_and!; try done.
  - apply (Hlk 0 (of_Z 0) eq_refl). reflexivity.
  - apply (Hlk 1 (of_Z 1) eq_refl). unfold of_Z. intros [= H]. lra.
Defined.

(** C1.  The interpolator does mutate its input: [metadata] is the
    metadata object of the input container itself, not a clone.  On a
    container of one snapshot the call returns a container that shares
    the metadata object of the input, and that object, which did not
    have the key [interpolated] before the call, has it afterwards. *)
Theorem interpolate_stamps_input_metadata :
  ∃ h' sd',
    interpolate_spatialdata_grid probe series1 (Fin (1 / 2)) heap2
    = (h', Ok sd') ∧
    _metadata sd' = _metadata series1 ∧
    (dicts heap2 !!! _metadata series1) !! "interpolated" = None ∧
    (dicts h' !!! _metadata series1) !! "interpolated" = Some (PBool true).
Proof.
  rewrite (interpolate_unfold probe series1 _ heap2 0 eq_refl _
             (sampling_grid_unit_square _ _)).
  eexists _, _. split; [reflexivity |]. split_and!; by vm_compute.
Qed.

(** ** Further properties *)

(** X1.  What a returning interpolation does to the heap: the new
    container shares the metadata object of the input, on which the three
    keys are now set; it has the index, time and load sequences of the
    input; its snapshots are new objects, pairwise distinct, one per input
    snapshot and in the same order, each holding the masked resampling of
    the input snapshot at its position; these objects are all that the
    heap gains, and every mesh that existed before the call is as it
    was. *)
Theorem interpolate_effect sample spatialdata spacing h h' sd' :
  (∀ l, l ∈ data_sets spatialdata → l ∈ dom (meshes h)) →
  interpolate_spatialdata_grid sample spatialdata spacing h = (h', Ok sd') →
  _metadata sd' = _metadata spatialdata ∧
  dicts h'
  = <[_metadata spatialdata :=
        interpolated_stamp spacing (dicts h !!! _metadata spatialdata)]>
      (dicts h) ∧
  _index sd' = _index spatialdata ∧ _time sd' = _time spatialdata ∧
  _load sd' = _load spatialdata ∧
  NoDup (data_sets sd') ∧
  dom (meshes h') = dom (meshes h) ∪ list_to_set (data_sets sd') ∧
  (∃ first grid,
     data_sets spatialdata !! 0 = Some first ∧
     sampling_grid (bounds (meshes h !!! first)) spacing = Ok grid ∧
     Forall2 (fun l l' =>
                (l' ∉ dom (meshes h)) ∧
                ∃ out,
                  mask_fields (array_names (sample grid (meshes h !!! l)))
                              (sample grid (meshes h !!! l)) = Ok out ∧
                  meshes h' !! l' = Some out)
             (data_sets spatialdata) (data_sets sd')) ∧
  (∀ l, l ∈ dom (meshes h) → meshes h' !! l = meshes h !! l).
Proof.
  intros Hwf Hrun.
  destruct (interpolate_Ok_first _ _ _ _ _ _ Hrun) as [first Hfirst].
  destruct (interpolate_Ok sample spatialdata spacing h first Hfirst
              h' sd' Hwf Hrun) as (grid & Hgrid & Hi & Ht & Hl & Hm & _).
  destruct (interpolate_new_objects sample spatialdata spacing h first Hfirst
              h' sd' Hwf Hrun) as (grid' & Hgrid' & Hnd & Hdom & Hall).
  destruct (interpolate_frame sample spatialdata spacing h first Hfirst
              grid Hgrid) as [Hd Hframe].
  rewrite Hrun in Hd, Hframe. cbn in Hd, Hframe.
  split_and!; try done.
  by exists first, grid'.
Qed.

(** On a container of one snapshot the heap gains one mesh, which is not
    the input snapshot, and the input snapshot is as it was. *)
Lemma interpolate_effect_witness :
  ∃ h' sd' l',
    interpolate_spatialdata_grid probe series1 (Fin (1 / 2)) heap2
    = (h', Ok sd') ∧
    _metadata sd' = _metadata series1 ∧
    data_sets sd' = [l'] ∧ (l' ∉ dom (meshes heap2)) ∧
    dom (meshes h') = dom (meshes heap2) ∪ {[l']} ∧
    (∀ l, l ∈ dom (meshes heap2) → meshes h' !! l = meshes heap2 !! l).
Proof.
  assert (∃ h' sd', interpolate_spatialdata_grid probe series1 (Fin (1 / 2))
                      heap2 = (h', Ok sd')) as (h' & sd' & Hrun).
  { rewrite (interpolate_unfold probe series1 _ heap2 0 eq_refl _
               (sampling_grid_unit_square _ _)).
    by eexists _, _. }
  destruct (interpolate_effect probe series1 (Fin (1 / 2)) heap2 h' sd')
    as (Hm & _ & _ & _ & _ & _ & Hdom & (first & grid & _ & _ & Hall) & Hframe);
    [| done |].
  { intros l Hl. apply list_elem_of_singleton in Hl as ->.
    apply elem_of_dom. by eexists. }
  change (data_sets series1) with [0] in Hall.
  apply Forall2_cons_inv_l in Hall as (l' & ls & [Hnew _] & Hnil & Hsd).
  apply Forall2_nil_inv_l in Hnil as ->.
  exists h', sd', l'. split_and!; try done.
  rewrite Hdom, Hsd. cbn. by rewrite union_empty_r_L.
Defined.

(** X2.  Stamping is idempotent: a second run of the differentiator with
    the same parameters leaves the metadata of the first run as it is. *)
Theorem stamping_idempotent lstsq spatialdata data_range window_size h first :
  data_sets spatialdata !! 0 = Some first →
  let h1 :=
    (window_differentation lstsq spatialdata data_range window_size h).1 in
  dicts (window_differentation lstsq spatialdata data_range window_size h1).1
  = dicts h1.
Proof.
  intros Hfirst h1.
  rewrite (window_differentation_dicts lstsq spatialdata data_range
             window_size h1 first Hfirst).
  unfold h1.
  rewrite (window_differentation_dicts lstsq spatialdata data_range
             window_size h first Hfirst).
  rewrite lookup_total_insert_eq, insert_insert_eq. f_equal.
  unfold dic_filter_stamp. apply map_eq. intros k.
  rewrite !lookup_insert. by repeat case_decide.
Qed.

Lemma stamping_idempotent_witness :
  dicts (window_differentation xy_solver series2 "all" 3
           (window_differentation xy_solver series2 "all" 3 heap2).1).1
  = dicts (window_differentation xy_solver series2 "all" 3 heap2).1.
Proof. exact (stamping_idempotent xy_solver series2 "all" 3 heap2 0 eq_refl). Defined.

(** X3.  Every point comes first in its own neighbourhood. *)
Theorem point_heads_its_neighbourhood m window_size point :
  point < number_of_points m →
  ∃ others,
    get_points_neighbours m window_size !! point = Some (point :: others).
Proof.
  intros Hp. unfold get_points_neighbours. cbv zeta.
  rewrite list_lookup_fmap, lookup_seq_lt by done. by eexists.
Qed.

Lemma point_heads_its_neighbourhood_witness :
  ∃ others, get_points_neighbours mesh_with_disp 5 !! 0 = Some (0 :: others).
Proof.
  apply point_heads_its_neighbourhood. unfold number_of_points. cbn. lia.
Defined.

(** ** Further properties: differentiation of one mesh *)

Lemma Ok_inj {A} (a b : A) : Ok a = Ok b → a = b.
Proof. by intros [= ->]. Qed.

Lemma mapM_result_length {A B} (f : A → result B) (l : list A) (k : list B) :
  mapM f l = Ok k → length k = length l.
Proof.
  revert k. induction l as [| x l IH]; intros k Hk.
  - by injection Hk as <-.
  - cbn in Hk. destruct (f x) as [y |]; [| done].
    rewrite result_bind_Ok in Hk.
    destruct (mapM f l) as [k' |]; [| done].
    injection Hk as <-. cbn. by rewrite (IH k').
Qed.

Lemma mapM_result_lookup {A B} (f : A → result B) (l : list A) (k : list B)
    i x :
  mapM f l = Ok k → l !! i = Some x → ∃ y, f x = Ok y ∧ k !! i = Some y.
Proof.
  revert k i. induction l as [| x' l IH]; intros k i Hk Hi; [done |].
  cbn in Hk. destruct (f x') as [y |] eqn:Hy; [| done].
  rewrite result_bind_Ok in Hk.
  destruct (mapM f l) as [k' |]; [| done].
  injection Hk as <-. destruct i as [| i].
  - injection Hi as <-. by exists y.
  - by apply (IH k' i).
Qed.

Lemma mapM_result_Raise {A B} (f : A → result B) (l : list A) x e :
  x ∈ l → f x = Raise e → ∃ e', mapM f l = Raise e'.
Proof.
  intros Hx Hf. induction l as [| x' l IH]; [by apply elem_of_nil in Hx |].
  cbn. destruct (f x') as [y |] eqn:Hy; [| by eexists].
  rewrite result_bind_Ok.
  apply elem_of_cons in Hx as [-> | Hx]; [congruence |].
  destruct (IH Hx) as [e' ->]. by eexists.
Qed.

(** The estimator on a window with too few samples. *)
Lemma evaluate_short_window lstsq window_size point_data data :
  (Z.of_nat (length data) < window_size ^ 2)%Z →
  evaluate_point_dev_n lstsq window_size point_data data = Ok (NaN, NaN).
Proof.
  intros Hlt. unfold evaluate_point_dev_n. cbv zeta.
  by rewrite (proj2 (Z.ltb_lt _ _) Hlt).
Qed.

(** What a successful differentiation says about one point. *)
Lemma differentiate_mesh_point lstsq window_size m points_list exx eyy exy i :
  differentiate_mesh lstsq window_size m points_list = Ok (exx, eyy, exy) →
  i < number_of_points m →
  ∃ dudx dudy dvdx dvdy,
    differentiate_point lstsq window_size m points_list i
    = Ok (dudx, dudy, dvdx, dvdy) ∧
    exx !! i = Some (exx_at dudx dudy) ∧
    eyy !! i = Some (eyy_at dvdx dvdy) ∧
    exy !! i = Some (exy_at dudx dudy dvdx dvdy).
Proof.
  intros Hrun Hi. unfold differentiate_mesh in Hrun. cbv zeta in Hrun.
  destruct (mapM (differentiate_point lstsq window_size m points_list)
              (seq 0 (number_of_points m))) as [g |] eqn:Hg; [| done].
  rewrite result_bind_Ok in Hrun.
  destruct (mapM_result_lookup _ _ _ i i Hg) as ([[[a b] c] d] & Hpt & Hgi).
  { by rewrite lookup_seq_lt. }
  exists a, b, c, d. split; [done |].
  pose proof (euler_almansi_n_lookup
                (map (fun t => t.1.1.1) g) (map (fun t => t.1.1.2) g)
                (map (fun t => t.1.2) g) (map (fun t => t.2) g) i a b c d)
    as Hlk.
  rewrite !list_lookup_fmap, Hgi in Hlk. specialize (Hlk eq_refl eq_refl
    eq_refl eq_refl).
  apply Ok_inj in Hrun. by rewrite Hrun in Hlk.
Qed.

(** X4.  A differentiation that returns gives three arrays with one entry
    per point of the mesh. *)
Theorem differentiate_mesh_lengths lstsq window_size m points_list
    exx eyy exy :
  differentiate_mesh lstsq window_size m points_list = Ok (exx, eyy, exy) →
  length exx = number_of_points m ∧ length eyy = number_of_points m ∧
  length exy = number_of_points m.
Proof.
  intros Hrun. unfold differentiate_mesh in Hrun. cbv zeta in Hrun.
  destruct (mapM (differentiate_point lstsq window_size m points_list)
              (seq 0 (number_of_points m))) as [g |] eqn:Hg; [| done].
  rewrite result_bind_Ok in Hrun.
  apply mapM_result_length in Hg. rewrite length_seq in Hg.
  pose proof (euler_almansi_n_length
                (map (fun t => t.1.1.1) g) (map (fun t => t.1.1.2) g)
                (map (fun t => t.1.2) g) (map (fun t => t.2) g)
                (number_of_points m)) as Hlen.
  rewrite !length_map in Hlen. specialize (Hlen Hg Hg Hg Hg).
  apply Ok_inj in Hrun. by rewrite Hrun in Hlen.
Qed.

Lemma differentiate_mesh_lengths_witness :
  ∃ exx eyy exy,
    differentiate_mesh xy_solver 3 mesh_with_disp [[0]] = Ok (exx, eyy, exy) ∧
    length exx = number_of_points mesh_with_disp.
Proof.
  exists [NaN], [NaN], [NaN]. split; [reflexivity |].
  by destruct (differentiate_mesh_lengths xy_solver 3 mesh_with_disp [[0]]
                 [NaN] [NaN] [NaN] eq_refl) as [H _].
Defined.

(** X5.  A point whose neighbourhood has fewer than [window_size^2]
    entries gets not-a-number for all three strains. *)
Theorem incomplete_window_nan_strain lstsq window_size m points_list
    exx eyy exy i nb :
  differentiate_mesh lstsq window_size m points_list = Ok (exx, eyy, exy) →
  i < number_of_points m →
  points_list !! i = Some nb →
  (Z.of_nat (length nb) < window_size ^ 2)%Z →
  exx !! i = Some NaN ∧ eyy !! i = Some NaN ∧ exy !! i = Some NaN.
Proof.
  intros Hrun Hi Hnb Hshort.
  destruct (differentiate_mesh_point _ _ _ _ _ _ _ i Hrun Hi)
    as (a & b & c & d & Hpt & Hxx & Hyy & Hxy).
  unfold differentiate_point, getitem in Hpt. rewrite Hnb in Hpt.
  rewrite result_bind_Ok in Hpt.
  destruct (take_indices (points m) nb) as [pd |]; [| done].
  rewrite result_bind_Ok in Hpt.
  destruct (point_data_getitem m "disp_x") as [ux |]; [| done].
  rewrite result_bind_Ok in Hpt.
  destruct (take_indices ux nb) as [u |] eqn:Hu; [| done].
  rewrite result_bind_Ok in Hpt.
  destruct (point_data_getitem m "disp_y") as [uy |]; [| done].
  rewrite result_bind_Ok in Hpt.
  destruct (take_indices uy nb) as [v |] eqn:Hv; [| done].
  rewrite result_bind_Ok in Hpt.
  apply mapM_result_length in Hu, Hv.
  rewrite !evaluate_short_window in Hpt by (by rewrite ?Hu, ?Hv).
  injection Hpt as <- <- <- <-.
  by rewrite Hxx, Hyy, Hxy.
Qed.

Lemma incomplete_window_nan_strain_witness :
  differentiate_mesh xy_solver 3 mesh_with_disp [[0]]
  = Ok ([NaN], [NaN], [NaN]) ∧
  ([NaN] : list float64) !! 0 = Some NaN.
Proof.
  split; [reflexivity |].
  by destruct (incomplete_window_nan_strain xy_solver 3 mesh_with_disp [[0]]
                 [NaN] [NaN] [NaN] 0 [0] eq_refl (le_n 1) eq_refl eq_refl)
    as [H _].
Defined.

(** X6.  On a mesh that lacks a displacement field, differentiation
    raises exactly when the mesh has a point: without points the fields
    are never read and three empty arrays come back. *)
Theorem missing_field_raises_iff_points lstsq window_size m points_list :
  point_data m !! "disp_x" = None ∨ point_data m !! "disp_y" = None →
  ((∃ e, differentiate_mesh lstsq window_size m points_list = Raise e)
   ↔ points m ≠ []) ∧
  (points m = [] →
   differentiate_mesh lstsq window_size m points_list = Ok ([], [], [])).
Proof.
  intros Hmiss.
  assert (Hempty : points m = [] →
            differentiate_mesh lstsq window_size m points_list
            = Ok ([], [], [])).
  { intros Hp. unfold differentiate_mesh, number_of_points. by rewrite Hp. }
  split; [| done]. split.
  - intros [e He] Hp. by rewrite (Hempty Hp) in He.
  - intros Hp. by apply differentiate_mesh_missing_field.
Qed.

Lemma missing_field_raises_iff_points_witness :
  (∃ e, differentiate_mesh xy_solver 3 mesh_without_disp [[0]] = Raise e)
  ↔ points mesh_without_disp ≠ [].
Proof.
  apply (missing_field_raises_iff_points xy_solver 3 mesh_without_disp [[0]]).
  by left.
Defined.

(** X7.  Differentiation raises when the neighbourhood list does not fit
    the mesh: when it has fewer entries than the mesh has points, or when
    the neighbourhood of one of the points names a point that the mesh
    does not have. *)
Theorem topology_mismatch_raises lstsq window_size m points_list :
  length points_list < number_of_points m ∨
  (∃ i nb k, i < number_of_points m ∧ points_list !! i = Some nb ∧
             k ∈ nb ∧ number_of_points m <= k) →
  ∃ e, differentiate_mesh lstsq window_size m points_list = Raise e.
Proof.
  intros Hbad.
  assert (∃ i e, i < number_of_points m ∧
                 differentiate_point lstsq window_size m points_list i
                 = Raise e) as (i & e & Hi & He).
  { destruct Hbad as [Hshort | (i & nb & k & Hi & Hnb & Hk & Hge)].
    - exists (length points_list), IndexError. split; [done |].
      unfold differentiate_point, getitem.
      by rewrite lookup_ge_None_2.
    - assert (∃ e, take_indices (points m) nb = Raise e) as [e He].
      { apply (mapM_result_Raise _ _ k IndexError); [done |].
        unfold getitem. by rewrite lookup_ge_None_2. }
      exists i, e. split; [done |].
      unfold differentiate_point, getitem. rewrite Hnb, result_bind_Ok.
      by rewrite He. }
  unfold differentiate_mesh. cbv zeta.
  destruct (mapM_result_Raise
              (differentiate_point lstsq window_size m points_list)
              (seq 0 (number_of_points m)) i e) as [e' ->]; [| done |].
  - apply elem_of_seq. lia.
  - by eexists.
Qed.

Lemma topology_mismatch_raises_witness :
  ∃ e, differentiate_mesh xy_solver 3 mesh_with_disp [] = Raise e.
Proof.
  apply topology_mismatch_raises. left. unfold number_of_points. cbn. lia.
Defined.

Lemma mapM_result_cons {A B} (f : A → result B) x l :
  mapM f (x :: l) = (y ← f x; k ← mapM f l; mret (y :: k)).
Proof. reflexivity. Qed.

Lemma getitem_fmap {A B} (f : A → B) (l : list A) k :
  getitem (f <$> l) k = f <$> getitem l k.
Proof. unfold getitem. rewrite list_lookup_fmap. by destruct (l !! k). Qed.

Lemma take_indices_fmap {A B} (f : A → B) (l : list A) (idx : list nat) :
  take_indices (f <$> l) idx
  = (fun r : list A => f <$> r) <$> take_indices l idx.
Proof.
  unfold take_indices. induction idx as [| k idx IH]; [done |].
  rewrite !mapM_result_cons, IH, getitem_fmap.
  destruct (getitem l k); [| done].
  by destruct (mapM (getitem l) idx).
Qed.

Lemma take_indices_lookup {A} (l : list A) (idx : list nat) (r : list A) j k :
  take_indices l idx = Ok r → idx !! j = Some k →
  ∃ x, l !! k = Some x ∧ r !! j = Some x.
Proof.
  intros Hr Hj. destruct (mapM_result_lookup _ _ _ j k Hr Hj) as (x & Hx & Hrj).
  exists x. split; [| done]. unfold getitem in Hx.
  by destruct (l !! k) as [y |]; [injection Hx as -> |].
Qed.

(** The estimator reads the x and y coordinates of the window only. *)
Lemma evaluate_point_dev_n_planar lstsq window_size pd pd' data :
  pt_x <$> pd = pt_x <$> pd' → pt_y <$> pd = pt_y <$> pd' →
  evaluate_point_dev_n lstsq window_size pd data
  = evaluate_point_dev_n lstsq window_size pd' data.
Proof.
  intros Hx Hy. unfold evaluate_point_dev_n, xy_rows.
  change (map pt_x pd) with (pt_x <$> pd).
  change (map pt_y pd) with (pt_y <$> pd).
  change (map pt_x pd') with (pt_x <$> pd').
  change (map pt_y pd') with (pt_y <$> pd').
  by rewrite Hx, Hy.
Qed.

(** X8.  Differentiation is planar: it reads only the x and y coordinates
    of the points and the fields [disp_x] and [disp_y].  Two meshes that
    agree on these give the same outcome, whatever their z coordinates,
    their other fields, their bounds or their connectivity. *)
Theorem differentiation_is_planar lstsq window_size m m' points_list :
  pt_x <$> points m = pt_x <$> points m' →
  pt_y <$> points m = pt_y <$> points m' →
  point_data m !! "disp_x" = point_data m' !! "disp_x" →
  point_data m !! "disp_y" = point_data m' !! "disp_y" →
  differentiate_mesh lstsq window_size m points_list
  = differentiate_mesh lstsq window_size m' points_list.
Proof.
  intros Hx Hy Hu Hv. unfold differentiate_mesh, number_of_points.
  assert (Hn : length (points m) = length (points m')).
  { by rewrite <- (length_fmap pt_x (points m)), Hx, length_fmap. }
  rewrite Hn.
  rewrite (mapM_result_ext _ (differentiate_point lstsq window_size m'
                                points_list)); [done |].
  intros point _. unfold differentiate_point, point_data_getitem.
  rewrite Hu, Hv.
  destruct (getitem points_list point) as [nb |]; [| done].
  rewrite !result_bind_Ok.
  pose proof (take_indices_fmap pt_x (points m) nb) as Hpx.
  pose proof (take_indices_fmap pt_y (points m) nb) as Hpy.
  rewrite Hx, take_indices_fmap in Hpx. rewrite Hy, take_indices_fmap in Hpy.
  destruct (take_indices (points m) nb) as [pd |],
           (take_indices (points m') nb) as [pd' |]; try done.
  - rewrite !result_bind_Ok. injection Hpx as Hpx. injection Hpy as Hpy.
    destruct (point_data m' !! "disp_x") as [ux |]; [| done].
    rewrite !result_bind_Ok.
    destruct (take_indices ux nb) as [u |]; [| done].
    rewrite !result_bind_Ok.
    destruct (point_data m' !! "disp_y") as [uy |]; [| done].
    rewrite !result_bind_Ok.
    destruct (take_indices uy nb) as [v |]; [| done].
    rewrite !result_bind_Ok.
    by rewrite !(evaluate_point_dev_n_planar lstsq window_size pd pd').
  - cbn in Hpx. by injection Hpx as ->.
Qed.

Lemma differentiation_is_planar_witness :
  differentiate_mesh xy_solver 3 mesh_with_disp [[0]]
  = differentiate_mesh xy_solver 3
      (Mesh [(of_Z 0, of_Z 0, of_Z 9)] (point_data mesh_with_disp)
            (bounds mesh_with_disp) (fun _ _ => [[0]])) [[0]].
Proof. by apply differentiation_is_planar. Defined.

(** The estimator on a full window: the solver is given the design
    matrix of the bilinear model and the samples, and the derivatives of
    its answer are taken at the entry of index [window_size^2 / 2]. *)
Lemma evaluate_full_window lstsq window_size pd data a b c d center :
  (window_size ^ 2 <= Z.of_nat (length data))%Z →
  pd !! Z.to_nat (window_size ^ 2 / 2) = Some center →
  lstsq ((fun p => [Fin 1; pt_x p; pt_y p; (pt_x p * pt_y p)%f]) <$> pd) data
  = Ok (a, b, c, d) →
  evaluate_point_dev_n lstsq window_size pd data
  = Ok ((b + d * pt_y center)%f, (c + d * pt_x center)%f).
Proof.
  intros Hge Hc Hsolve. unfold evaluate_point_dev_n. cbv zeta.
  rewrite (proj2 (Z.ltb_ge _ _) Hge), L_Q4_n_rows, Hsolve.
  rewrite result_bind_Ok, round_half_square, (column_xy_rows _ _ _ Hc).
  reflexivity.
Qed.

(** X9.  Where the derivatives of a point are taken.  For a point whose
    neighbourhood [nb] is complete, the derivatives stored for it are
    those of the two fitted models at the mesh point
    [nb[window_size^2 / 2]]: the entry at that position of the
    neighbourhood list, not the point itself unless it stands there. *)
Theorem derivatives_taken_at_window_entry lstsq window_size m points_list
    i nb pd ux uy u v a b c d a' b' c' d' j :
  points_list !! i = Some nb →
  (window_size ^ 2 <= Z.of_nat (length nb))%Z →
  nb !! Z.to_nat (window_size ^ 2 / 2) = Some j →
  take_indices (points m) nb = Ok pd →
  point_data m !! "disp_x" = Some ux → take_indices ux nb = Ok u →
  point_data m !! "disp_y" = Some uy → take_indices uy nb = Ok v →
  lstsq ((fun p => [Fin 1; pt_x p; pt_y p; (pt_x p * pt_y p)%f]) <$> pd) u
  = Ok (a, b, c, d) →
  lstsq ((fun p => [Fin 1; pt_x p; pt_y p; (pt_x p * pt_y p)%f]) <$> pd) v
  = Ok (a', b', c', d') →
  ∃ center,
    points m !! j = Some center ∧
    differentiate_point lstsq window_size m points_list i
    = Ok ((b + d * pt_y center)%f, (c + d * pt_x center)%f,
          (b' + d' * pt_y center)%f, (c' + d' * pt_x center)%f).
Proof.
  intros Hnb Hfull Hj Hpd Hux Hu Huy Hv Hsu Hsv.
  destruct (take_indices_lookup _ _ _ _ _ Hpd Hj) as (center & Hc & Hpc).
  exists center. split; [done |].
  pose proof (mapM_result_length _ _ _ Hu) as Lu.
  pose proof (mapM_result_length _ _ _ Hv) as Lv.
  unfold differentiate_point, getitem. rewrite Hnb, result_bind_Ok.
  rewrite Hpd, result_bind_Ok.
  rewrite (point_data_getitem_Some _ _ _ Hux), result_bind_Ok.
  rewrite Hu, result_bind_Ok.
  rewrite (point_data_getitem_Some _ _ _ Huy), result_bind_Ok.
  rewrite Hv, result_bind_Ok.
  rewrite (evaluate_full_window lstsq window_size pd u a b c d center);
    [| by rewrite Lu | done | done].
  rewrite result_bind_Ok.
  rewrite (evaluate_full_window lstsq window_size pd v a' b' c' d' center);
    [| by rewrite Lv | done | done].
  reflexivity.
Qed.

Lemma derivatives_taken_at_window_entry_witness :
  ∃ center,
    points mesh10 !! 4 = Some center ∧
    differentiate_point xy_solver 3 mesh10 neighbours10 0
    = Ok ((of_Z 0 + of_Z 1 * pt_y center)%f, (of_Z 0 + of_Z 1 * pt_x center)%f,
          (of_Z 0 + of_Z 1 * pt_y center)%f, (of_Z 0 + of_Z 1 * pt_x center)%f).
Proof.
  apply (derivatives_taken_at_window_entry xy_solver 3 mesh10 neighbours10
           0 [0; 1; 2; 3; 4; 5; 6; 7; 8; 9] window10 samples10 samples10
           samples10 samples10 (of_Z 0) _ _ _ (of_Z 0)); try reflexivity.
  cbn. lia.
Defined.

(** ** Further properties: the window differentiator *)

Lemma same_but_strain_refl m : same_but_strain m m.
Proof. by split_and!. Qed.

Lemma same_but_strain_trans m1 m2 m3 :
  same_but_strain m1 m2 → same_but_strain m2 m3 → same_but_strain m1 m3.
Proof.
  intros (Hp & Hb & Hn & Hd) (Hp' & Hb' & Hn' & Hd'). split_and!; try congruence.
  intros name H1 H2 H3. by rewrite Hd, Hd'.
Qed.

Lemma same_but_strain_write e m : same_but_strain (write_strain e m) m.
Proof.
  split_and!; try done. intros name H1 H2 H3. cbn.
  by rewrite !lookup_insert_ne.
Qed.

Section DifferentiatorFrame.
Context (lstsq : list (list float64) → list float64 → result params).
Context (window_size : Z) (points_list : list (list nat)).

Local Abbreviation process := (process_mesh lstsq window_size points_list).

Lemma process_mesh_frame l h :
  (∀ l', l' ≠ l → meshes (process l h).1 !! l' = meshes h !! l') ∧
  (∀ l', same_but_strain (meshes (process l h).1 !!! l') (meshes h !!! l')).
Proof.
  destruct (differentiate_mesh lstsq window_size (meshes h !!! l) points_list)
    as [e | e] eqn:He.
  - rewrite (process_mesh_Ok _ _ _ _ _ e He). cbn. split.
    + intros l' Hne. by rewrite lookup_insert_ne.
    + intros l'. destruct (decide (l = l')) as [<- | Hne].
      * rewrite lookup_total_insert_eq. apply same_but_strain_write.
      * rewrite lookup_total_insert_ne by done. apply same_but_strain_refl.
  - rewrite (process_mesh_Raise _ _ _ _ _ e He). split; [done |].
    intros l'. apply same_but_strain_refl.
Qed.

Lemma for_in_process_frame xs : ∀ h,
  (∀ l, l ∉ xs → meshes (for_in xs process h).1 !! l = meshes h !! l) ∧
  (∀ l, same_but_strain (meshes (for_in xs process h).1 !!! l)
                        (meshes h !!! l)).
Proof.
  induction xs as [| x xs IH]; intros h.
  - split; [done |]. intros l. apply same_but_strain_refl.
  - destruct (process_mesh_frame x h) as [Hout Hsame]. cbn [for_in].
    destruct (process x h) as [h1 [[] | e]] eqn:Hstep.
    + erewrite M_bind_Ok by done. destruct (IH h1) as [Hout' Hsame'].
      cbn in Hout, Hsame. split.
      * intros l Hl. apply not_elem_of_cons in Hl as [Hne Hl].
        by rewrite Hout', Hout.
      * intros l. eapply same_but_strain_trans; [apply Hsame' | apply Hsame].
    + erewrite M_bind_Raise by done. cbn in *. split; [| done].
      intros l Hl. apply not_elem_of_cons in Hl as [Hne Hl]. by apply Hout.
Qed.
End DifferentiatorFrame.

(** X10.  What the window differentiator never touches, whether it
    returns or raises: any dictionary but the metadata of the container,
    any mesh that is not a snapshot of the container, and, on every mesh,
    the points, the bounds, the connectivity and every field but [exx],
    [eyy] and [exy]. *)
Theorem window_differentation_frame lstsq spatialdata data_range
    window_size h :
  let h' :=
    (window_differentation lstsq spatialdata data_range window_size h).1 in
  (∀ d, d ≠ _metadata spatialdata → dicts h' !! d = dicts h !! d) ∧
  (∀ l, l ∉ data_sets spatialdata → meshes h' !! l = meshes h !! l) ∧
  (∀ l, same_but_strain (meshes h' !!! l) (meshes h !!! l)).
Proof.
  intros h'. unfold h'. clear h'.
  destruct (data_sets spatialdata !! 0) as [first |] eqn:Hfirst.
  - split.
    { intros d Hd.
      rewrite (window_differentation_dicts _ _ _ _ _ first Hfirst).
      by rewrite lookup_insert_ne. }
    rewrite (window_differentation_unfold _ _ _ _ _ first Hfirst).
    destruct (String.eqb data_range "all").
    { apply (for_in_process_frame lstsq window_size _
               (data_sets spatialdata) (Heap (meshes h) _)). }
    destruct (String.eqb data_range "last").
    + destruct (last_is_Some spatialdata first Hfirst) as [l Hl].
      erewrite M_bind_Ok
        by (unfold lift; by rewrite (getitem_last spatialdata l Hl)).
      destruct (process_mesh_frame lstsq window_size
                  (get_points_neighbours (meshes h !!! first) window_size) l
                  (Heap (meshes h)
                     (<[_metadata spatialdata :=
                          dic_filter_stamp window_size data_range
                            (dicts h !!! _metadata spatialdata)]> (dicts h))))
        as [Hout Hsame].
      split; [| exact Hsame].
      intros l' Hl'. apply Hout. intros ->. apply Hl'.
      rewrite last_lookup in Hl. by eapply list_elem_of_lookup_2.
    + split; [done |]. intros l. apply same_but_strain_refl.
  - assert (Hrun : window_differentation lstsq spatialdata data_range
                     window_size h = (h, Raise IndexError)).
    { unfold window_differentation. eapply M_bind_Raise.
      unfold lift, getitem. by rewrite Hfirst. }
    rewrite Hrun. split_and!; try done.
Qed.

Lemma get_points_neighbours_same m' m window_size :
  same_but_strain m' m →
  get_points_neighbours m' window_size = get_points_neighbours m window_size.
Proof.
  intros (Hp & _ & Hn & _). unfold get_points_neighbours, number_of_points.
  by rewrite Hp, Hn.
Qed.

(** X11.  The window differentiator is idempotent: after a run in which
    the differentiation of the selected snapshots raised nothing, a second
    run with the same parameters returns and leaves the heap, meshes and
    metadata, exactly as the first run left it. *)
Theorem window_differentation_idempotent lstsq spatialdata data_range
    window_size h first :
  data_sets spatialdata !! 0 = Some first →
  (∀ l, l ∈ selected_snapshots spatialdata data_range →
        ∃ e, differentiate_mesh lstsq window_size (meshes h !!! l)
               (get_points_neighbours (meshes h !!! first) window_size)
             = Ok e) →
  let h1 :=
    (window_differentation lstsq spatialdata data_range window_size h).1 in
  window_differentation lstsq spatialdata data_range window_size h1
  = (h1, Ok ()).
Proof.
  intros Hfirst Hok h1.
  destruct (window_differentation_Ok lstsq spatialdata data_range window_size
              h first Hfirst Hok) as (ms1 & Hrun & Hin & Hout).
  assert (Hh1 : h1 = Heap ms1
                  (<[_metadata spatialdata :=
                       dic_filter_stamp window_size data_range
                         (dicts h !!! _metadata spatialdata)]> (dicts h)))
    by (unfold h1; by rewrite Hrun).
  clearbody h1. subst h1.
  set (D1 := <[_metadata spatialdata := _]> (dicts h)).
  set (pl := get_points_neighbours (meshes h !!! first) window_size) in *.
  assert (Hsame : ∀ l, same_but_strain (ms1 !!! l) (meshes h !!! l)).
  { intros l.
    destruct (decide (l ∈ selected_snapshots spatialdata data_range))
      as [Hl | Hl].
    - destruct (Hin l Hl) as (e & _ & Hw).
      rewrite (lookup_total_correct _ _ _ Hw). apply same_but_strain_write.
    - rewrite !lookup_total_alt, (Hout l Hl). apply same_but_strain_refl. }
  assert (Hpl : get_points_neighbours (ms1 !!! first) window_size = pl)
    by apply get_points_neighbours_same, Hsame.
  destruct (window_differentation_Ok lstsq spatialdata data_range window_size
              (Heap ms1 D1) first Hfirst) as (ms2 & Hrun2 & Hin2 & Hout2).
  { intros l Hl. cbn. rewrite Hpl.
    destruct (Hin l Hl) as (e & He & Hw). exists e.
    by rewrite (lookup_total_correct _ _ _ Hw),
      differentiate_mesh_write_strain. }
  rewrite Hrun2. f_equal. cbn. f_equal.
  - apply map_eq. intros l.
    destruct (decide (l ∈ selected_snapshots spatialdata data_range))
      as [Hl | Hl]; [| by apply Hout2].
    destruct (Hin l Hl) as (e & He & Hw).
    destruct (Hin2 l Hl) as (e' & He' & Hw'). cbn in He', Hw'.
    rewrite Hpl, (lookup_total_correct _ _ _ Hw),
      differentiate_mesh_write_strain in He'.
    assert (e' = e) as -> by congruence.
    by rewrite Hw', Hw, (lookup_total_correct _ _ _ Hw), write_strain_idemp.
  - unfold D1. rewrite lookup_total_insert_eq, insert_insert_eq. f_equal.
    unfold dic_filter_stamp. apply map_eq. intros k.
    rewrite !lookup_insert. by repeat case_decide.
Qed.

Lemma window_differentation_idempotent_witness :
  window_differentation xy_solver series1 "all" 3
    (window_differentation xy_solver series1 "all" 3 heap2).1
  = ((window_differentation xy_solver series1 "all" 3 heap2).1, Ok ()).
Proof.
  apply (window_differentation_idempotent xy_solver series1 "all" 3 heap2 0
           eq_refl).
  intros l Hl. apply list_elem_of_singleton in Hl as ->.
  by exists ([NaN], [NaN], [NaN]).
Defined.

(** X12.  An even window size selects the neighbourhoods of the odd
    window size below it: both give [int((window_size - 1) / 2)] the same
    number of connectivity levels. *)
Theorem even_window_uses_odd_below m (k : Z) :
  (0 <= k)%Z →
  get_points_neighbours m (2 * k + 2) = get_points_neighbours m (2 * k + 1).
Proof.
  intros Hk. unfold get_points_neighbours, int_half. cbv zeta.
  replace (Z.quot (2 * k + 2 - 1) 2) with k
    by (Z.quot_rem_to_equations; lia).
  replace (Z.quot (2 * k + 1 - 1) 2) with k
    by (Z.quot_rem_to_equations; lia).
  done.
Qed.

Lemma even_window_uses_odd_below_witness :
  get_points_neighbours mesh10 (2 * 2 + 2)
  = get_points_neighbours mesh10 (2 * 2 + 1).
Proof. apply even_window_uses_odd_below. lia. Defined.

(** ** Further properties: the strain calculator *)

(** X13.  For a pure stretch along the axes ([dudy = dvdx = 0] and both
    stretches [1 + dudx] and [1 + dvdy] positive) the normal strains are
    the logarithmic strains [ln(1 + dudx)] and [ln(1 + dvdy)], and the
    shear strain is zero. *)
Theorem pure_stretch_log_strain dudx dudy dvdx dvdy i (a d : R) :
  dudx !! i = Some (Fin a) → dudy !! i = Some (Fin 0) →
  dvdx !! i = Some (Fin 0) → dvdy !! i = Some (Fin d) →
  (-1 < a)%R → (-1 < d)%R →
  let '(exx, eyy, exy) := euler_almansi_n dudx dudy dvdx dvdy in
  exx !! i = Some (Fin (ln (1 + a))) ∧
  eyy !! i = Some (Fin (ln (1 + d))) ∧
  exy !! i = Some (Fin 0).
Proof.
  intros Ha Hb Hc Hd Hpa Hpd.
  pose proof (euler_almansi_n_lookup dudx dudy dvdx dvdy i _ _ _ _
                Ha Hb Hc Hd) as H.
  destruct (euler_almansi_n dudx dudy dvdx dvdy) as [[exx eyy] exy].
  destruct H as (Hxx & Hyy & Hxy).
  assert (Hlog : ∀ t, (-1 < t)%R →
            flog (fsqrt (Fin ((1 + t) * (1 + t) + 0 * 0))) = Fin (ln (1 + t))).
  { intros t Ht.
    replace ((1 + t) * (1 + t) + 0 * 0)%R with ((1 + t) * (1 + t))%R by lra.
    rewrite fsqrt_Fin by nra. rewrite sqrt_square by lra.
    apply flog_Fin. lra. }
  split_and!.
  - rewrite Hxx. unfold exx_at. by rewrite radicand_at_Fin, Hlog.
  - rewrite Hyy. unfold eyy_at. by rewrite radicand_yy_at_Fin, Hlog.
  - rewrite Hxy. unfold exy_at. cbn. f_equal. apply Fin_eq. lra.
Qed.

Lemma pure_stretch_log_strain_witness :
  let '(exx, eyy, exy) :=
    euler_almansi_n [Fin 1] [Fin 0] [Fin 0] [Fin 2] in
  exx !! 0 = Some (Fin (ln (1 + 1))) ∧
  eyy !! 0 = Some (Fin (ln (1 + 2))) ∧
  exy !! 0 = Some (Fin 0).
Proof.
  apply (pure_stretch_log_strain [Fin 1] [Fin 0] [Fin 0] [Fin 2] 0 1 2);
    try reflexivity; lra.
Defined.

(** ** Further properties: the grid interpolator *)









(** X16.  The metadata is stamped as soon as the grid is built: whether
    the resampling of the snapshots then returns or raises, the metadata
    object of the input carries the three keys, and every mesh that
    existed before the call is as it was. *)
Theorem interpolate_stamps_before_resampling sample spatialdata spacing h
    first grid :
  data_sets spatialdata !! 0 = Some first →
  sampling_grid (bounds (meshes h !!! first)) spacing = Ok grid →
  let h' :=
    (interpolate_spatialdata_grid sample spatialdata spacing h).1 in
  dicts h'
  = <[_metadata spatialdata :=
        interpolated_stamp spacing (dicts h !!! _metadata spatialdata)]>
      (dicts h) ∧
  ∀ l, l ∈ dom (meshes h) → meshes h' !! l = meshes h !! l.
Proof.
  intros Hfirst Hgrid. by apply (interpolate_frame _ _ _ _ first Hfirst grid).
Qed.

Lemma interpolate_stamps_before_resampling_witness :
  (interpolate_spatialdata_grid probe_without_mask series1 (Fin (1 / 2))
     heap2).2 = Raise (KeyError "vtkValidPointMask") ∧
  dicts (interpolate_spatialdata_grid probe_without_mask series1
           (Fin (1 / 2)) heap2).1
  = <[_metadata series1 :=
        interpolated_stamp (Fin (1 / 2)) (dicts heap2 !!! _metadata series1)]>
      (dicts heap2).
Proof.
  split.
  - rewrite (interpolate_unfold probe_without_mask series1 _ heap2 0 eq_refl _
               (sampling_grid_unit_square _ _)).
    reflexivity.
  - apply (interpolate_stamps_before_resampling probe_without_mask series1
             (Fin (1 / 2)) heap2 0 _ eq_refl (sampling_grid_unit_square _ _)).
Defined.

Lemma mask_fields_misfit fields field a : ∀ cur,
  NoDup fields → field ∈ fields → field ∉ excluded_fields →
  point_data cur !! field = Some a →
  (point_data cur !! "vtkValidPointMask" = None ∨
   ∃ valid, point_data cur !! "vtkValidPointMask" = Some valid ∧
            length valid ≠ length a) →
  ∃ e, mask_fields fields cur = Raise e.
Proof.
  induction fields as [| f fields IH]; intros cur Hnd Hin Hex Ha Hmask.
  - by apply elem_of_nil in Hin.
  - apply NoDup_cons in Hnd as [Hf Hnd]. cbn [mask_fields].
    destruct (mask_field cur f) as [cur1 |] eqn:Hstep; [| by eexists].
    rewrite result_bind_Ok.
    destruct (decide (f = field)) as [-> | Hne].
    + apply mask_field_Ok in Hstep as (a0 & valid & a' & Ha0 & Hv & Has & _);
        [| done].
      destruct Hmask as [Hnone | (valid' & Hv' & Hlen)]; [congruence |].
      assert (a0 = a) as -> by congruence.
      assert (valid' = valid) as -> by congruence.
      apply assign_nan_where_Ok in Has as [Hl _].
      rewrite length_fmap in Hl. done.
    + apply elem_of_cons in Hin as [-> | Hin]; [done |].
      apply (IH cur1); try done.
      * destruct (decide (f ∈ excluded_fields)) as [Hfe | Hfe].
        -- rewrite mask_field_excluded in Hstep by done.
           by injection Hstep as <-.
        -- apply mask_field_Ok in Hstep as (? & ? & ? & _ & _ & _ & ->);
             [| done].
           cbn. by rewrite lookup_insert_ne.
      * destruct (decide (f ∈ excluded_fields)) as [Hfe | Hfe].
        -- rewrite mask_field_excluded in Hstep by done.
           by injection Hstep as <-.
        -- apply mask_field_Ok in Hstep as (? & ? & ? & _ & _ & _ & ->);
             [| done].
           assert (f ≠ "vtkValidPointMask").
           { intros ->. apply Hfe. unfold excluded_fields. do 2 right. left. }
           cbn. by rewrite lookup_insert_ne.
Qed.

(** X17.  The masking loop raises when the resampled snapshot carries a
    field, other than [ObjectId], [vtkGhostType] and [vtkValidPointMask],
    that the validity mask does not fit: when there is no validity mask,
    or when the mask and the field differ in length. *)
Theorem masking_raises_on_misfit res field a :
  point_data res !! field = Some a →
  field ∉ excluded_fields →
  (point_data res !! "vtkValidPointMask" = None ∨
   ∃ valid, point_data res !! "vtkValidPointMask" = Some valid ∧
            length valid ≠ length a) →
  ∃ e, mask_fields (array_names res) res = Raise e.
Proof.
  intros Ha Hex Hmask.
  apply (mask_fields_misfit (array_names res) field a res); try done.
  - apply NoDup_fst_map_to_list.
  - unfold array_names. apply list_elem_of_fmap. exists (field, a).
    split; [done |]. by apply elem_of_map_to_list.
Qed.

Lemma masking_raises_on_misfit_witness :
  ∃ e, mask_fields
         (array_names (probe_without_mask
                         (structured_grid [Fin 0] [Fin 0] (Fin 0))
                         mesh_with_disp))
         (probe_without_mask (structured_grid [Fin 0] [Fin 0] (Fin 0))
            mesh_with_disp) = Raise e.
Proof.
  apply (masking_raises_on_misfit _ "disp_x" [of_Z 7]).
  - reflexivity.
  - unfold excluded_fields. intros H.
    repeat (apply elem_of_cons in H as [H | H]; [done |]).
    by apply elem_of_nil in H.
  - by left.
Defined.

(** ** Further properties: one topology for the whole series *)

Lemma get_points_neighbours_length m window_size :
  length (get_points_neighbours m window_size) = number_of_points m.
Proof.
  unfold get_points_neighbours. cbv zeta. by rewrite length_map, length_seq.
Qed.

Lemma differentiate_mesh_short_list lstsq window_size m points_list :
  length points_list < number_of_points m →
  ∃ e, differentiate_mesh lstsq window_size m points_list = Raise e.
Proof.
  intros Hshort. unfold differentiate_mesh. cbv zeta.
  destruct (mapM_result_Raise
              (differentiate_point lstsq window_size m points_list)
              (seq 0 (number_of_points m)) (length points_list) IndexError)
    as [e ->]; [| | by eexists].
  - apply elem_of_seq. lia.
  - unfold differentiate_point, getitem. by rewrite lookup_ge_None_2.
Qed.

(** X18.  The neighbourhoods are those of the first snapshot: when a
    selected snapshot has more points than the first one, the window
    differentiator raises; that snapshot is left as it was, and the
    metadata keys have been set by then. *)
Theorem more_points_than_first_raises lstsq spatialdata data_range
    window_size h first l :
  data_sets spatialdata !! 0 = Some first →
  l ∈ selected_snapshots spatialdata data_range →
  number_of_points (meshes h !!! first) < number_of_points (meshes h !!! l) →
  ∃ ms' e,
    window_differentation lstsq spatialdata data_range window_size h
    = (Heap ms'
         (<[_metadata spatialdata :=
              dic_filter_stamp window_size data_range
                (dicts h !!! _metadata spatialdata)]> (dicts h)),
       Raise e) ∧
    ms' !! l = meshes h !! l.
Proof.
  intros Hfirst Hl Hmore.
  apply (window_differentation_Raise _ _ _ _ _ first Hfirst l Hl).
  apply differentiate_mesh_short_list.
  by rewrite get_points_neighbours_length.
Qed.

Lemma more_points_than_first_raises_witness :
  ∃ ms' e,
    window_differentation xy_solver series3 "last" 3 heap3
    = (Heap ms'
         (<[_metadata series3 :=
              dic_filter_stamp 3 "last" (dicts heap3 !!! _metadata series3)]>
            (dicts heap3)),
       Raise e) ∧
    ms' !! 2 = meshes heap3 !! 2.
Proof.
  apply (more_points_than_first_raises xy_solver series3 "last" 3 heap3 1 2).
  - reflexivity.
  - by left.
  - apply Nat.ltb_lt. reflexivity.
Defined.
